(** * Bounded-retention record eviction: [DatabaseCleanupService]

    A shallow embedding of [src/services/DatabaseCleanupService.ts] (with
    the part of [LoggerService.ts] and of the server start-up it relies
    on) and the properties of its counters, its eviction query and its
    start-up reconciliation.

    The service is a TypeORM subscriber.  Its own state is the map
    [tableCounters]; everything else it touches is the data source (the
    tables, the entity metadata) and the logger.  The code is written
    against promises: [limparRegistrosAntigos] is an [async] function that
    [afterInsert] calls without awaiting and [verificarEstadoAtual] calls
    with [await].  The embedding keeps that structure: computations live in
    a state-and-exception monad over a [World], and an [async] function is
    cut at its [await]s into segments that the event loop resumes. *)

From stdpp Require Import gmap strings list sorting fin_maps pretty.
From Stdlib Require Import ZArith Lia Ascii.

Local Open Scope nat_scope.

(** ** Constants ([DatabaseCleanupService.ts], lines 7-8) *)

Definition LIMITE_REGISTROS : nat := 500.
Definition REGISTROS_PARA_REMOVER : nat := 250.

(** ** Data *)

(** The two fields of TypeORM's [EntityMetadata] that the service reads. *)
Record EntityMetadata := mkEntity {
  target : string;
  tableName : string
}.

(** A stored row, as far as the eviction query looks at it: the two
    timestamp columns, either of which may be NULL.  The primary key is
    the key of the table map. *)
Record Row := mkRow {
  created_at : option Z;
  data_registro : option Z
}.

(** The entities [getMany] returns: primary key and columns. *)
Definition Entity : Type := N * Row.

(** What a call to the store does: it succeeds, or it fails; a failing
    [remove] may already have deleted the first [partial] rows. *)
Inductive Outcome :=
| Succeeds
| Fails (partial : nat).

Inductive Error :=
| EntityMetadataNotFound (target : string)
| QueryFailedError.

(** The log lines of the service, one constructor per message. *)
Inductive Level := INFO | WARN | ERROR.

Inductive Message :=
| ServicoIniciado (limiteRegistros registrosParaRemover : nat)
| LimiteAtingido (tabela : string) (registrosAtuais : nat)
| RegistrosRemovidos (tabela : string) (quantidadeRemovida : nat)
| ErroAoLimpar (tabela : string) (error : Error)
| TabelaExcedeu (tabela : string) (registrosAtuais limite : nat)
| EstadoVerificado (tabela : string) (registrosAtuais : nat)
| ErroAoVerificar (tabela : string) (error : Error).

(** History of what happened, newest first.  It is not program state: no
    function below reads it. *)
Inductive Event :=
| EvAfterInsert (tableName : string)
| EvLimpar (tableName : string)
| EvCount (repository : string)
| EvGetMany (repository : string) (take : nat)
| EvRemove (repository : string) (ids : list N)
| EvUnhandledRejection (error : Error).

(** A suspended call of [limparRegistrosAntigos]: the [await] it waits at
    and the locals that are live there. *)
Inductive Task :=
| AwaitGetMany (repository tableName : string)
| AwaitRemove (repository tableName : string) (registrosAntigos : list Entity).

Record World := mkWorld {
  (* the service *)
  tableCounters : gmap string nat;
  (* the event loop: calls of async functions nobody awaits *)
  pending : list Task;
  (* AppDataSource *)
  entityMetadatas : list EntityMetadata;
  tables : gmap string (gmap N Row);
  nulls_first : bool;
  (* outcomes of the coming calls to the store; none left: success *)
  oracle : list Outcome;
  (* console, newest first *)
  log : list (Level * Message);
  trace : list Event
}.

Definition set_tableCounters (f : gmap string nat → gmap string nat) (w : World) : World :=
  mkWorld (f (tableCounters w)) (pending w) (entityMetadatas w) (tables w)
          (nulls_first w) (oracle w) (log w) (trace w).

Definition set_pending (f : list Task → list Task) (w : World) : World :=
  mkWorld (tableCounters w) (f (pending w)) (entityMetadatas w) (tables w)
          (nulls_first w) (oracle w) (log w) (trace w).

Definition set_tables (f : gmap string (gmap N Row) → gmap string (gmap N Row))
    (w : World) : World :=
  mkWorld (tableCounters w) (pending w) (entityMetadatas w) (f (tables w))
          (nulls_first w) (oracle w) (log w) (trace w).

Definition set_oracle (f : list Outcome → list Outcome) (w : World) : World :=
  mkWorld (tableCounters w) (pending w) (entityMetadatas w) (tables w)
          (nulls_first w) (f (oracle w)) (log w) (trace w).

Definition set_log (f : list (Level * Message) → list (Level * Message))
    (w : World) : World :=
  mkWorld (tableCounters w) (pending w) (entityMetadatas w) (tables w)
          (nulls_first w) (oracle w) (f (log w)) (trace w).

Definition set_trace (f : list Event → list Event) (w : World) : World :=
  mkWorld (tableCounters w) (pending w) (entityMetadatas w) (tables w)
          (nulls_first w) (oracle w) (log w) (f (trace w)).

(** ** The monad: state and exceptions *)

Inductive Result (A : Type) :=
| Ok (a : A)
| Throw (e : Error).
Arguments Ok {A} a.
Arguments Throw {A} e.

Definition M (A : Type) : Type := World → Result A * World.

Definition ret {A} (a : A) : M A := λ w, (Ok a, w).

Definition bind {A B} (m : M A) (k : A → M B) : M B :=
  λ w, match m w with
       | (Ok a, w') => k a w'
       | (Throw e, w') => (Throw e, w')
       end.

Definition throw {A} (e : Error) : M A := λ w, (Throw e, w).

(** [try { body } catch (error) { handler }] *)
Definition try_catch {A} (body : M A) (handler : Error → M A) : M A :=
  λ w, match body w with
       | (Ok a, w') => (Ok a, w')
       | (Throw e, w') => handler e w'
       end.

Definition modify (f : World → World) : M unit := λ w, (Ok tt, f w).
Definition gets {A} (f : World → A) : M A := λ w, (Ok (f w), w).

Notation "'let*' x ':=' m 'in' k" := (bind m (λ x, k))
  (at level 10, x name, m at level 100, k at level 200, only parsing).
Notation "m '>>' k" := (bind m (λ _, k))
  (at level 100, k at level 200, right associativity, only parsing).

(** The world a computation leaves, and what it returns. *)
Definition exec {A} (m : M A) (w : World) : World := (m w).2.
Definition outcome_of {A} (m : M A) (w : World) : Result A := (m w).1.

Definition emit (e : Event) : M unit := modify (set_trace (cons e)).

(** ** [LoggerService] *)

Module LoggerService.
Definition info (message : Message) : M unit :=
  modify (set_log (cons (INFO, message))).
Definition error (message : Message) : M unit :=
  modify (set_log (cons (ERROR, message))).
Definition warn (message : Message) : M unit :=
  modify (set_log (cons (WARN, message))).
End LoggerService.

(** ** The store: what the service uses of TypeORM

    The data source itself ([database/data-source.ts]) and the entities
    are not among the sources at hand; the service only calls them.  What
    a world holds of them is therefore given from outside: the tables,
    the entity metadata, where the store sorts NULL, and which of the
    coming calls fail. *)

(** [COALESCE(created_at, data_registro)] *)
Definition COALESCE (a b : option Z) : option Z :=
  match a with
  | Some _ => a
  | None => b
  end.

Definition recency (r : Row) : option Z :=
  COALESCE (created_at r) (data_registro r).

(** [ORDER BY ... ASC]: the order of the keys; where NULL sorts is the
    store's choice. *)
Definition key_leb (nulls_first : bool) (a b : option Z) : bool :=
  match a, b with
  | Some x, Some y => (x <=? y)%Z
  | None, None => true
  | None, Some _ => nulls_first
  | Some _, None => negb nulls_first
  end.

Definition row_le (nulls_first : bool) (x y : Entity) : Prop :=
  key_leb nulls_first (recency x.2) (recency y.2).

Global Instance row_le_dec nf : RelDecision (row_le nf).
Proof. intros x y. unfold row_le. apply _. Defined.

Definition oldest_first (nf : bool) (t : gmap N Row) : list Entity :=
  merge_sort (row_le nf) (map_to_list t).

(** [DELETE] by primary key, one entity after the other. *)
Definition delete_rows (ids : list N) (t : gmap N Row) : gmap N Row :=
  foldr delete t ids.

Definition next_outcome : M Outcome :=
  λ w, match oracle w with
       | [] => (Ok Succeeds, w)
       | o :: os => (Ok o, set_oracle (λ _, os) w)
       end.

Definition table_of (w : World) (repository : string) : gmap N Row :=
  default ∅ (tables w !! repository).

Module AppDataSource.
(** Modelled from the spec: [getRepository], of which the sources hold
    only the calls.  It hands out the repository of a registered target
    and throws for any other. *)
Definition getRepository (target : string) : M string :=
  λ w, match tables w !! target with
       | Some _ => (Ok target, w)
       | None => (Throw (EntityMetadataNotFound target), w)
       end.
End AppDataSource.

Module Repository.
(** Modelled from the spec: the repository of a table ([count], the
    ordered query, [remove]), of which the sources hold only the calls.
    Section 6 of the specification gives the contract: the number of
    rows; the first [n] rows in ascending order of the recency key; the
    deletion of the rows handed in.  Each call may fail (section 7), a
    deletion after part of the rows are gone. *)
Definition count (repository : string) : M nat :=
  emit (EvCount repository) >>
  let* o := next_outcome in
  match o with
  | Succeeds => gets (λ w, size (table_of w repository))
  | Fails _ => throw QueryFailedError
  end.

(** [createQueryBuilder().orderBy(COALESCE(..), ASC).take(n).getMany()] *)
Definition getMany (repository : string) (n : nat) : M (list Entity) :=
  emit (EvGetMany repository n) >>
  let* o := next_outcome in
  match o with
  | Succeeds =>
      gets (λ w, take n (oldest_first (nulls_first w) (table_of w repository)))
  | Fails _ => throw QueryFailedError
  end.

Definition remove (repository : string) (entities : list Entity) : M unit :=
  emit (EvRemove repository entities.*1) >>
  let* o := next_outcome in
  match o with
  | Succeeds =>
      modify (set_tables (alter (delete_rows entities.*1) repository))
  | Fails k =>
      modify (set_tables (alter (delete_rows (take k entities.*1)) repository)) >>
      throw QueryFailedError
  end.
End Repository.

(** ** [DatabaseCleanupService] *)

(** [constructor] (lines 11-18).  Its [subscribers.push(this)] is what
    makes [save] below call [afterInsert]. *)
Definition constructor : M unit :=
  modify (set_tableCounters (λ _, ∅)) >>
  LoggerService.info (ServicoIniciado LIMITE_REGISTROS REGISTROS_PARA_REMOVER).

(** The [try]/[catch] that spans the body of [limparRegistrosAntigos]
    (lines 36, 52-54): every segment runs inside it. *)
Definition limpar_catch (tableName : string) (body : M (option Task)) : M (option Task) :=
  try_catch body
    (λ error, LoggerService.error (ErroAoLimpar tableName error) >> ret None).

(** [limparRegistrosAntigos], up to its first [await] (lines 36-43). *)
Definition limparRegistrosAntigos (entity tableName : string) : M (option Task) :=
  emit (EvLimpar tableName) >>
  limpar_catch tableName (
    let* repository := AppDataSource.getRepository entity in
    ret (Some (AwaitGetMany repository tableName))).

(** [limparRegistrosAntigos], from one [await] to the next (lines 39-51). *)
Definition resume (k : Task) : M (option Task) :=
  match k with
  | AwaitGetMany repository tableName =>
      limpar_catch tableName (
        let* registrosAntigos :=
          Repository.getMany repository REGISTROS_PARA_REMOVER in
        if 0 <? length registrosAntigos
        then ret (Some (AwaitRemove repository tableName registrosAntigos))
        else ret None)
  | AwaitRemove repository tableName registrosAntigos =>
      limpar_catch tableName (
        Repository.remove repository registrosAntigos >>
        LoggerService.info
          (RegistrosRemovidos tableName (length registrosAntigos)) >>
        ret None)
  end.

(** The [await]s a suspended call still has before it. *)
Definition awaits_left (k : Task) : nat :=
  match k with
  | AwaitGetMany _ _ => 2
  | AwaitRemove _ _ _ => 1
  end.

Fixpoint drive (fuel : nat) (k : Task) : M unit :=
  match fuel with
  | 0 => ret tt
  | S fuel' =>
      let* k' := resume k in
      match k' with
      | None => ret tt
      | Some k'' => drive fuel' k''
      end
  end.

(** [await f(..)]: the call runs to its end before the caller goes on. *)
Definition await (call : M (option Task)) : M unit :=
  let* k := call in
  match k with
  | None => ret tt
  | Some k' => drive (awaits_left k') k'
  end.

(** [f(..)] with the promise dropped: the call runs up to its first
    [await] and the rest is left to the event loop.  A rejection nobody
    handles is recorded. *)
Definition settle (call : M (option Task)) : M unit :=
  λ w, match call w with
       | (Ok None, w') => (Ok tt, w')
       | (Ok (Some k), w') => (Ok tt, set_pending (λ ks, ks ++ [k]) w')
       | (Throw e, w') => (Ok tt, set_trace (cons (EvUnhandledRejection e)) w')
       end.

(** [afterInsert] (lines 20-33) *)
Definition afterInsert (event : EntityMetadata) : M unit :=
  let tableName := tableName event in
  emit (EvAfterInsert tableName) >>
  let* stored := gets (λ w, tableCounters w !! tableName) in
  let currentCount := default 0 stored + 1 in
  modify (set_tableCounters <[tableName := currentCount]>) >>
  if LIMITE_REGISTROS <=? currentCount then
    LoggerService.info (LimiteAtingido tableName currentCount) >>
    settle (limparRegistrosAntigos (target event) tableName) >>
    modify (set_tableCounters <[tableName := 0]>)
  else ret tt.

(** The body of the loop of [verificarEstadoAtual] (lines 61-81). *)
Definition verificar_entity (entity : EntityMetadata) : M unit :=
  try_catch (
    let* repository := AppDataSource.getRepository (target entity) in
    let* count := Repository.count repository in
    (if LIMITE_REGISTROS <=? count then
       LoggerService.warn
         (TabelaExcedeu (tableName entity) count LIMITE_REGISTROS) >>
       await (limparRegistrosAntigos (target entity) (tableName entity))
     else ret tt) >>
    modify (set_tableCounters
              <[tableName entity := count mod LIMITE_REGISTROS]>) >>
    LoggerService.info (EstadoVerificado (tableName entity) count))
  (λ error, LoggerService.error (ErroAoVerificar (tableName entity) error)).

Fixpoint verificar_entities (entities : list EntityMetadata) : M unit :=
  match entities with
  | [] => ret tt
  | entity :: rest => verificar_entity entity >> verificar_entities rest
  end.

(** [verificarEstadoAtual] (lines 57-83) *)
Definition verificarEstadoAtual : M unit :=
  let* entities := gets entityMetadatas in
  verificar_entities entities.

(** ** The host: start-up and the event loop *)

(** The data source as the server finds it when it starts. *)
Definition initial (metadatas : list EntityMetadata)
    (tbls : gmap string (gmap N Row)) (nf : bool) (faults : list Outcome) : World :=
  mkWorld ∅ [] metadatas tbls nf faults [] [].

(** What can happen once the server is up. *)
Inductive Action :=
| Save (entity : EntityMetadata) (id : N) (row : Row)
| Resume (i : nat)
| Erase (repository : string) (id : N).

(** A row is saved and the subscriber is told; a row that cannot be
    saved (no such table, key taken) is not announced. *)
Definition save (entity : EntityMetadata) (id : N) (row : Row) : M unit :=
  λ w, match tables w !! target entity with
       | Some t =>
           match t !! id with
           | None =>
               afterInsert entity
                 (set_tables <[target entity := <[id := row]> t]> w)
           | Some _ => (Ok tt, w)
           end
       | None => (Ok tt, w)
       end.

(** The event loop picks the [i]-th suspended call and runs it to its
    next [await]. *)
Definition resume_pending (i : nat) : M unit :=
  λ w, match pending w !! i with
       | Some k => settle (resume k) (set_pending (delete i) w)
       | None => (Ok tt, w)
       end.

Definition step (a : Action) : M unit :=
  match a with
  | Save entity id row => save entity id row
  | Resume i => resume_pending i
  | Erase repository id => modify (set_tables (alter (delete id) repository))
  end.

Fixpoint steps (acts : list Action) : M unit :=
  match acts with
  | [] => ret tt
  | a :: rest => step a >> steps rest
  end.

(** The service just built on a data source ([new DatabaseCleanupService()]
    in the [then] of [AppDataSource.initialize]).  The server reconciles
    next and listens only after that. *)
Definition start (metadatas : list EntityMetadata)
    (tbls : gmap string (gmap N Row)) (nf : bool) (faults : list Outcome) : World :=
  exec constructor (initial metadatas tbls nf faults).

(** The states the program can be in: the service is built; from there
    it reconciles, rows are saved and erased, suspended evictions go on,
    and the store may change its mind about the calls to come. *)
Inductive reachable : World → Prop :=
| reach_start metadatas tbls nf faults :
    reachable (start metadatas tbls nf faults)
| reach_reconcile w :
    reachable w → reachable (exec verificarEstadoAtual w)
| reach_step w a :
    reachable w → reachable (exec (step a) w)
| reach_faults w faults :
    reachable w → reachable (set_oracle (λ _, faults) w).

(** ** Vocabulary of the properties *)

(** One eviction, run to its end: what [verificarEstadoAtual] awaits. *)
Definition evict (entity tableName : string) : M unit :=
  await (limparRegistrosAntigos entity tableName).

(** What the eviction query returns on a table, and the table once those
    rows are deleted. *)
Definition registros_antigos (nf : bool) (t : gmap N Row) : list Entity :=
  take REGISTROS_PARA_REMOVER (oldest_first nf t).

Definition evicted (nf : bool) (t : gmap N Row) : gmap N Row :=
  delete_rows (registros_antigos nf t).*1 t.

(** No call to the store is going to fail. *)
Definition healthy (w : World) : Prop :=
  Forall (λ o, o = Succeeds) (oracle w).

(** The next call to the store fails; a delete, after [partial_of] rows. *)
Definition store_fails (w : World) : bool :=
  match oracle w with
  | Fails _ :: _ => true
  | _ => false
  end.

Definition partial_of (w : World) : nat :=
  match oracle w with
  | Fails k :: _ => k
  | _ => 0
  end.

(** [tableCounters.get(t) || 0] *)
Definition counter (w : World) (t : string) : nat :=
  default 0 (tableCounters w !! t).

(** [SELECT COUNT] on a table. *)
Definition rows (w : World) (repository : string) : nat :=
  size (table_of w repository).



(** Calls of [limparRegistrosAntigos] for [t]. *)
Fixpoint evictions (t : string) (tr : list Event) : nat :=
  match tr with
  | [] => 0
  | EvLimpar t' :: tr' => (if decide (t' = t) then 1 else 0) + evictions t tr'
  | _ :: tr' => evictions t tr'
  end.

(** Events of the store, as opposed to those of the service. *)
Definition store_event (e : Event) : bool :=
  match e with
  | EvCount _ | EvGetMany _ _ | EvRemove _ _ => true
  | _ => false
  end.

Definition is_rejection (e : Event) : bool :=
  match e with
  | EvUnhandledRejection _ => true
  | _ => false
  end.

Definition is_save (a : Action) : bool :=
  match a with
  | Save _ _ _ => true
  | _ => false
  end.


(** The line the reconciliation logs when it is done with table [t]. *)
Definition verdict_for (t : string) (l : Level * Message) : Prop :=
  (∃ count, l = (INFO, EstadoVerificado t count))
  ∨ (∃ error, l = (ERROR, ErroAoVerificar t error)).

(** ** Sample data *)

Definition artigos : EntityMetadata := mkEntity "Article" "article".
Definition categorias : EntityMetadata := mkEntity "Category" "category".

(** [n] rows with keys [0 .. n-1], row [i] created at time [i]. *)
Definition sample_rows (n : nat) : gmap N Row :=
  list_to_map ((λ i, (N.of_nat i, mkRow (Some (Z.of_nat i)) None)) <$> seq 0 n).

Definition three_rows : gmap N Row :=
  {[ 1%N := mkRow (Some 30%Z) None;
     2%N := mkRow None (Some 10%Z);
     3%N := mkRow (Some 20%Z) (Some 5%Z) ]}.

(** One table of [n] rows, the service just built. *)
Definition sample_world (n : nat) (faults : list Outcome) : World :=
  start [artigos] {[ "Article" := sample_rows n ]} false faults.

(** The same, one insert short of the threshold. *)
Definition near_threshold (n : nat) (faults : list Outcome) : World :=
  set_tableCounters <["article" := 499]> (sample_world n faults).

Definition two_tables (faults : list Outcome) : World :=
  start [categorias; artigos]
        {[ "Category" := three_rows; "Article" := sample_rows 1240 ]}
        false faults.

(** Two tables, and a store whose first call fails. *)
Definition failing_count : World :=
  start [artigos; categorias]
        {[ "Category" := three_rows; "Article" := sample_rows 4 ]}
        false [Fails 0].

(** [n] rows saved one after the other into the table of [artigos]. *)
Definition saves (n : nat) : list Action :=
  (λ i, Save artigos (N.of_nat i) (mkRow (Some (Z.of_nat i)) None)) <$> seq 0 n.

(** ** Vocabulary of the further properties *)

(** Inserts announced for [t]. *)
Fixpoint announced (t : string) (tr : list Event) : nat :=
  match tr with
  | [] => 0
  | EvAfterInsert t' :: tr' => (if decide (t' = t) then 1 else 0) + announced t tr'
  | _ :: tr' => announced t tr'
  end.

(** The counters and the history agree on how often a table was evicted. *)
Definition paced (w : World) : Prop :=
  ∀ t, announced t (trace w)
       = LIMITE_REGISTROS * evictions t (trace w) + counter w t
       ∧ counter w t < LIMITE_REGISTROS.

(** Rows saved one after the other for one entity. *)
Definition save_all (e : EntityMetadata) (rs : list Entity) : list Action :=
  (λ r, Save e r.1 r.2) <$> rs.

(** 500 rows with keys [1000 .. 1499]. *)
Definition fresh_rows : list Entity :=
  (λ i, (N.of_nat (1000 + i), mkRow None (Some (Z.of_nat i)))) <$> seq 0 500.


(** ** [formatDate] ([utils/FormatDate.ts]) and the lines of [LoggerService] *)

(** What [formatDate] reads of a [Date]: the values of its getters, in
    local time.  [getMonth] counts from 0. *)
Record Date := mkDate {
  getDate : nat;
  getMonth : nat;
  getFullYear : Z;
  getHours : nat;
  getMinutes : nat;
  getSeconds : nat;
  getMilliseconds : nat
}.

(** The ranges the getters of a valid [Date] stay in. *)
Definition valid_date (d : Date) : bool :=
  (1 <=? getDate d) && (getDate d <=? 31) && (getMonth d <=? 11)
  && (getHours d <=? 23) && (getMinutes d <=? 59) && (getSeconds d <=? 59)
  && (getMilliseconds d <=? 999).

Fixpoint repeat_char (n : nat) (c : ascii) : string :=
  match n with
  | 0 => ""
  | S n' => String c (repeat_char n' c)
  end.

(** [s.padStart(targetLength, c)] for a one-character filler. *)
Definition padStart (targetLength : nat) (c : ascii) (s : string) : string :=
  repeat_char (targetLength - String.length s) c +:+ s.

(** [formatDate] (lines 1-11); [toString] of an integer is [pretty]. *)
Definition formatDate (date : Date) : string :=
  let dia := padStart 2 "0" (pretty (getDate date)) in
  let mes := padStart 2 "0" (pretty (getMonth date + 1)) in
  let ano := pretty (getFullYear date) in
  let hora := padStart 2 "0" (pretty (getHours date)) in
  let minuto := padStart 2 "0" (pretty (getMinutes date)) in
  let segundo := padStart 2 "0" (pretty (getSeconds date)) in
  let milisegundos := padStart 3 "0" (pretty (getMilliseconds date)) in
  dia +:+ "-" +:+ mes +:+ "-" +:+ ano +:+ " " +:+ hora +:+ ":" +:+ minuto
      +:+ ":" +:+ segundo +:+ "." +:+ milisegundos.

(** The escape sequences of [LoggerService] (lines 4-8). *)
Definition ESC : ascii := "027"%char.
Definition BLUE : string := String ESC "[34m".
Definition RED : string := String ESC "[31m".
Definition YELLOW : string := String ESC "[33m".
Definition GRAY : string := String ESC "[90m".
Definition RESET : string := String ESC "[0m".

(** The first argument [info], [error] and [warn] hand to the console
    (lines 12, 17, 22), for the time [now] that [new Date()] gave. *)
Definition console_line (level : Level) (now : Date) (message : string) : string :=
  let timestamp := formatDate now in
  match level with
  | INFO => "[" +:+ BLUE +:+ "INFO" +:+ RESET +:+ "] " +:+ GRAY +:+ timestamp
                +:+ RESET +:+ " - " +:+ message
  | ERROR => "[" +:+ RED +:+ "ERROR" +:+ RESET +:+ "] " +:+ GRAY +:+ timestamp
                 +:+ RESET +:+ " - " +:+ message
  | WARN => "[" +:+ YELLOW +:+ "WARN" +:+ RESET +:+ "] " +:+ GRAY +:+ timestamp
                +:+ RESET +:+ " - " +:+ message
  end.

(** No escape character in the text. *)
Fixpoint no_esc (s : string) : bool :=
  match s with
  | EmptyString => true
  | String c s' => negb (bool_decide (c = ESC)) && no_esc s'
  end.

(** 2 November 2026, 19:52:07.045. *)
Definition sample_date : Date := mkDate 2 10 2026 19 52 7 45.


(** ** [authMiddleware] ([middleware/authMiddleware.ts]) *)

(** [s.split(" ")]: the text before the first space, and the pieces
    after it. *)
Fixpoint split_first (s : string) : string * list string :=
  match s with
  | EmptyString => ("", [])
  | String c s' =>
      let (p, ps) := split_first s' in
      if bool_decide (c = " "%char) then ("", p :: ps) else (String c p, ps)
  end.

Definition split_on_space (s : string) : list string :=
  let (p, ps) := split_first s in p :: ps.

Fixpoint no_space (s : string) : bool :=
  match s with
  | EmptyString => true
  | String c s' => negb (bool_decide (c = " "%char)) && no_space s'
  end.

Fixpoint spaces (s : string) : nat :=
  match s with
  | EmptyString => 0
  | String c s' => (if bool_decide (c = " "%char) then 1 else 0) + spaces s'
  end.

(** The letters A to Z in lower case, any other character as it is. *)
Definition lower (c : ascii) : ascii :=
  let n := nat_of_ascii c in
  if (65 <=? n) && (n <=? 90) then ascii_of_nat (n + 32) else c.

Fixpoint lower_string (s : string) : string :=
  match s with
  | EmptyString => ""
  | String c s' => String (lower c) (lower_string s')
  end.

(** [/^Bearer$/i.test(scheme)] *)
Definition is_bearer (scheme : string) : bool :=
  bool_decide (lower_string scheme = "bearer").

(** The answers of the middleware: [res.status(401).json({ erro })] with
    one of three texts, or [next()] with [req.userId] set. *)
Inductive AuthErro :=
| TokenNaoFornecido      (* "Token não fornecido" *)
| TokenMalFormatado      (* "Token mal formatado" *)
| TokenInvalido.         (* "Token inválido" *)

Inductive AuthReply :=
| Status401 (erro : AuthErro)
| Next (userId : option string).

(** The line it logs on the way. *)
Inductive AuthLog :=
| AcessoSemToken
| LogTokenMalFormatado (token : string)
| TipoDeAutenticacaoInvalido (scheme : string)
| UsuarioAutenticado (userId : option string)
| LogTokenInvalido.

(** [authMiddleware] (lines 11-42).  [verify] stands for
    [jwt.verify(token, JWT_SECRET)]: [None] when it throws, the [id] of
    the decoded payload (which may have none) when it returns. *)
Definition authMiddleware (verify : string → option (option string))
    (authorization : option string) : (Level * AuthLog) * AuthReply :=
  match authorization with
  | None | Some EmptyString =>
      ((WARN, AcessoSemToken), Status401 TokenNaoFornecido)
  | Some authHeader =>
      match split_on_space authHeader with
      | [scheme; token] =>
          if is_bearer scheme then
            match verify token with
            | Some id => ((INFO, UsuarioAutenticado id), Next id)
            | None => ((ERROR, LogTokenInvalido), Status401 TokenInvalido)
            end
          else ((WARN, TipoDeAutenticacaoInvalido scheme),
                Status401 TokenMalFormatado)
      | _ => ((WARN, LogTokenMalFormatado authHeader),
              Status401 TokenMalFormatado)
      end
  end.

(** A [verify] that accepts one token. *)
Definition sample_verify (token : string) : option (option string) :=
  if bool_decide (token = "abc.def.ghi") then Some (Some "42") else None.


(** ** Start-up ([index.ts], the [then] and [catch] of
    [AppDataSource.initialize()]) *)




(** ** Facts about the store *)

Lemma key_leb_total nf a b : key_leb nf a b = true ∨ key_leb nf b a = true.
Proof.
  destruct a as [x|], b as [y|], nf; simpl; auto;
    (destruct (Z.leb_spec x y); [by left|right; apply Z.leb_le; lia]).
Qed.

Lemma key_leb_trans nf a b c :
  key_leb nf a b = true → key_leb nf b c = true → key_leb nf a c = true.
Proof.
  destruct a as [x|], b as [y|], c as [z|], nf; simpl; try done.
  all: rewrite !Z.leb_le; lia.
Qed.


Global Instance row_le_total nf : Total (row_le nf).
Proof.
  intros x y. unfold row_le.
  destruct (key_leb_total nf (recency x.2) (recency y.2)) as [H|H];
    rewrite H; simpl; auto.
Qed.

Global Instance row_le_trans nf : Transitive (row_le nf).
Proof.
  intros x y z. unfold row_le. rewrite !Is_true_true. apply key_leb_trans.
Qed.

Section store_facts.
Context (nf : bool).
Implicit Types (t : gmap N Row) (ids : list N).

Lemma oldest_first_perm t : oldest_first nf t ≡ₚ map_to_list t.
Proof. apply merge_sort_Permutation. Qed.


Lemma oldest_first_length t : length (oldest_first nf t) = size t.
Proof.
  rewrite <- length_map_to_list. apply Permutation_length, oldest_first_perm.
Qed.

Lemma elem_of_oldest_first t i r : (i, r) ∈ oldest_first nf t ↔ t !! i = Some r.
Proof. by rewrite oldest_first_perm, elem_of_map_to_list. Qed.

Lemma oldest_first_NoDup t : NoDup (oldest_first nf t).*1.
Proof. rewrite oldest_first_perm. apply NoDup_fst_map_to_list. Qed.

Lemma oldest_first_empty : oldest_first nf ∅ = [].
Proof. unfold oldest_first. by rewrite map_to_list_empty. Qed.

Lemma registros_antigos_length t :
  length (registros_antigos nf t) = min REGISTROS_PARA_REMOVER (size t).
Proof. unfold registros_antigos. by rewrite length_take, oldest_first_length. Qed.

Lemma registros_antigos_split t :
  oldest_first nf t =
  registros_antigos nf t ++ drop REGISTROS_PARA_REMOVER (oldest_first nf t).
Proof. unfold registros_antigos. by rewrite take_drop. Qed.

Lemma lookup_delete_rows ids t k :
  delete_rows ids t !! k = if decide (k ∈ ids) then None else t !! k.
Proof.
  unfold delete_rows. induction ids as [|i ids IH]; cbn [foldr].
  - case_decide as H; [by apply elem_of_nil in H|done].
  - destruct (decide (i = k)) as [->|Hne].
    + rewrite lookup_delete_eq.
      destruct (decide (k ∈ k :: ids)) as [|H]; [done|].
      exfalso. apply H. by left.
    + rewrite lookup_delete_ne by done. rewrite IH.
      destruct (decide (k ∈ ids)) as [Hin|Hout],
               (decide (k ∈ i :: ids)) as [Hin'|Hout']; try done.
      * exfalso. apply Hout'. by right.
      * apply elem_of_cons in Hin' as [->|Hin']; done.
Qed.

Lemma size_delete_rows ids t :
  NoDup ids → (∀ i, i ∈ ids → is_Some (t !! i)) →
  size (delete_rows ids t) = size t - length ids.
Proof.
  unfold delete_rows. induction 1 as [|i ids Hi Hnd IH]; intros Hin; simpl.
  - lia.
  - assert (is_Some (foldr delete t ids !! i)) as Hr.
    { fold (delete_rows ids t). rewrite lookup_delete_rows.
      rewrite decide_False by done. apply Hin. by left. }
    rewrite map_size_delete_Some by done.
    rewrite IH by (intros; apply Hin; by right). lia.
Qed.

Lemma delete_rows_subseteq ids t : delete_rows ids t ⊆ t.
Proof.
  apply map_subseteq_spec. intros k r. rewrite lookup_delete_rows.
  by case_decide.
Qed.

Lemma registros_antigos_in t i r :
  (i, r) ∈ registros_antigos nf t → t !! i = Some r.
Proof.
  intros H. apply elem_of_oldest_first. rewrite registros_antigos_split.
  set_solver.
Qed.

Lemma evicted_size t :
  size (evicted nf t) = size t - min REGISTROS_PARA_REMOVER (size t).
Proof.
  unfold evicted. rewrite size_delete_rows.
  - by rewrite length_fmap, registros_antigos_length.
  - pose proof (oldest_first_NoDup t) as Hnd.
    rewrite registros_antigos_split, fmap_app in Hnd.
    by apply NoDup_app in Hnd as (? & _ & _).
  - intros i [[i' r] [-> Hir]]%list_elem_of_fmap. simpl.
    rewrite (registros_antigos_in _ _ _ Hir). eauto.
Qed.


Lemma evicted_empty : evicted nf ∅ = ∅.
Proof.
  unfold evicted, registros_antigos. by rewrite oldest_first_empty, take_nil.
Qed.


End store_facts.

(** ** Running the embedding symbolically *)

Ltac run_prims :=
  cbv [AppDataSource.getRepository Repository.count Repository.getMany
       Repository.remove LoggerService.info LoggerService.warn
       LoggerService.error next_outcome emit
       bind ret throw try_catch modify gets exec outcome_of table_of
       set_tableCounters set_pending set_tables set_oracle set_log set_trace
       tableCounters pending entityMetadatas tables nulls_first oracle log trace]
    in *;
  cbn [fst snd drop] in *;
  repeat match goal with
         | H : ?m !! ?k = _ |- context [?m !! ?k] => rewrite H
         end;
  cbn [default from_option id].

Ltac run :=
  cbv [evict await drive awaits_left resume limparRegistrosAntigos limpar_catch
       settle afterInsert verificar_entity save resume_pending step constructor
       start initial counter rows healthy] in *;
  run_prims.

(** Splits on the next thing the computation in the goal waits for. *)
Ltac fork :=
  match goal with
  | |- context [match ?o with [] => _ | _ :: _ => _ end] =>
      is_var o; destruct o as [|[|?] ?]
  | |- context [match ?m !! ?k with Some _ => _ | None => _ end] =>
      destruct (m !! k) eqn:?
  | |- context [if ?b then _ else _] => destruct b eqn:?
  end; run_prims.

Lemma afterInsert_outcome w e : outcome_of (afterInsert e) w = Ok tt.
Proof. destruct w as [c p em tb nf o lg tr]. run. repeat fork; reflexivity. Qed.

Lemma afterInsert_counters w e :
  tableCounters (exec (afterInsert e) w) =
  <[tableName e :=
      if LIMITE_REGISTROS <=? counter w (tableName e) + 1 then 0
      else counter w (tableName e) + 1]> (tableCounters w).
Proof.
  destruct w as [c p em tb nf o lg tr]. run. repeat fork; try reflexivity; apply insert_insert_eq.
Qed.

Lemma afterInsert_trace w e :
  trace (exec (afterInsert e) w) =
  if LIMITE_REGISTROS <=? counter w (tableName e) + 1
  then EvLimpar (tableName e) :: EvAfterInsert (tableName e) :: trace w
  else EvAfterInsert (tableName e) :: trace w.
Proof. destruct w as [c p em tb nf o lg tr]. run. repeat fork; reflexivity. Qed.

Lemma afterInsert_pending w e :
  pending (exec (afterInsert e) w) =
  if LIMITE_REGISTROS <=? counter w (tableName e) + 1
  then match tables w !! target e with
       | Some _ => pending w ++ [AwaitGetMany (target e) (tableName e)]
       | None => pending w
       end
  else pending w.
Proof. destruct w as [c p em tb nf o lg tr]. run. repeat fork; reflexivity. Qed.

Lemma afterInsert_store w e :
  tables (exec (afterInsert e) w) = tables w ∧
  oracle (exec (afterInsert e) w) = oracle w ∧
  nulls_first (exec (afterInsert e) w) = nulls_first w ∧
  entityMetadatas (exec (afterInsert e) w) = entityMetadatas w.
Proof. destruct w as [c p em tb nf o lg tr]. run. repeat fork; auto. Qed.

(** *** The monad *)

Lemma exec_bind {A B} (m : M A) (k : A → M B) w a :
  outcome_of m w = Ok a → exec (bind m k) w = exec (k a) (exec m w).
Proof. unfold outcome_of, exec, bind. destruct (m w) as [[?|?] ?]; naive_solver. Qed.

Lemma outcome_bind {A B} (m : M A) (k : A → M B) w a :
  outcome_of m w = Ok a →
  outcome_of (bind m k) w = outcome_of (k a) (exec m w).
Proof. unfold outcome_of, exec, bind. destruct (m w) as [[?|?] ?]; naive_solver. Qed.

(** *** The history *)


Lemma evictions_store t new tr :
  forallb store_event new = true → evictions t (new ++ tr) = evictions t tr.
Proof. induction new as [|[] new IH]; simpl; intros; auto; done. Qed.

Lemma evictions_app t new tr :
  evictions t (new ++ tr) = evictions t new + evictions t tr.
Proof. induction new as [|[] new IH]; simpl; auto. rewrite IH. lia. Qed.

(** *** One segment of an eviction *)

Ltac pick_prefix :=
  first [ by exists [] | by eexists [_] | by eexists [_; _]
        | by eexists [_; _; _] | by eexists [_; _; _; _] ].
Ltac pick_drop :=
  first [ by exists 0 | by exists 1 | by exists 2 | by exists 3 ].

Lemma resume_outcome k w : ∃ r, outcome_of (resume k) w = Ok r.
Proof.
  destruct w as [c p em tb nf o lg tr], k; run; repeat fork; eauto.
Qed.

Lemma resume_service k w :
  tableCounters (exec (resume k) w) = tableCounters w ∧
  pending (exec (resume k) w) = pending w ∧
  entityMetadatas (exec (resume k) w) = entityMetadatas w ∧
  nulls_first (exec (resume k) w) = nulls_first w.
Proof.
  destruct w as [c p em tb nf o lg tr], k; run; repeat fork; auto.
Qed.

Lemma resume_trace k w :
  ∃ new, trace (exec (resume k) w) = new ++ trace w ∧
         forallb store_event new = true.
Proof.
  destruct w as [c p em tb nf o lg tr], k; run; repeat fork; pick_prefix.
Qed.

Lemma resume_pending_outcome i w : outcome_of (resume_pending i) w = Ok tt.
Proof.
  unfold outcome_of, resume_pending.
  destruct (pending w !! i) as [k|]; [|done].
  unfold settle. by destruct (resume k _) as [[[?|]|?] ?].
Qed.

Lemma resume_pending_counters i w :
  tableCounters (exec (resume_pending i) w) = tableCounters w.
Proof.
  unfold exec, resume_pending.
  destruct (pending w !! i) as [k|]; [|done].
  unfold settle.
  pose proof (resume_service k (set_pending (delete i) w)) as (Hc & _).
  unfold exec in Hc.
  destruct (resume k _) as [[[?|]|?] ?]; simpl in *; by rewrite Hc.
Qed.

Lemma resume_pending_trace i w :
  ∃ new, trace (exec (resume_pending i) w) = new ++ trace w ∧
         forallb store_event new = true.
Proof.
  unfold exec, resume_pending.
  destruct (pending w !! i) as [k|]; [|by exists []].
  unfold settle.
  pose proof (resume_outcome k (set_pending (delete i) w)) as [r Hr].
  pose proof (resume_trace k (set_pending (delete i) w)) as (new & Hn & Hs).
  unfold exec, outcome_of in *.
  destruct (resume k _) as [[[?|]|?] ?]; simpl in *; try done; eauto.
Qed.

(** *** The counters follow the history *)

Lemma counter_insert w t n t' f :
  tableCounters (f w) = <[t := n]> (tableCounters w) →
  counter (f w) t' = if decide (t = t') then n else counter w t'.
Proof.
  intros H. unfold counter. rewrite H. case_decide as Heq.
  - subst. by rewrite lookup_insert_eq.
  - by rewrite lookup_insert_ne.
Qed.




Lemma save_eq entity id row w :
  save entity id row w = (Ok tt, w) ∨
  ∃ t, save entity id row w =
       afterInsert entity (set_tables <[target entity := t]> w).
Proof.
  unfold save. destruct (tables w !! target entity) as [t|]; [|by left].
  destruct (t !! id); [by left|]. right. eauto.
Qed.

Lemma step_outcome a w : outcome_of (step a) w = Ok tt.
Proof.
  destruct a as [entity id row|i|repository id]; simpl.
  - destruct (save_eq entity id row w) as [H|[t H]]; unfold outcome_of; rewrite H.
    + done.
    + apply afterInsert_outcome.
  - apply resume_pending_outcome.
  - done.
Qed.


Lemma exec_steps_cons a acts w :
  exec (steps (a :: acts)) w = exec (steps acts) (exec (step a) w).
Proof. simpl. apply exec_bind with (a := tt), step_outcome. Qed.



(** The scenario of the specification: 499 rows saved into an empty
    table start no eviction and leave the counter at 499; the next one
    starts the eviction and resets the counter; once the eviction has
    run, the 250 oldest rows are gone and 250 remain. *)
Example scenario_500_inserts :
  let w499 := exec (steps (saves 499)) (sample_world 0 []) in
  let w500 := exec (steps (saves 500)) (sample_world 0 []) in
  let w_end := exec (steps [Resume 0; Resume 0]) w500 in
  (tableCounters w499 !! "article" = Some 499
   ∧ evictions "article" (trace w499) = 0 ∧ rows w499 "Article" = 499)
  ∧ (tableCounters w500 !! "article" = Some 0
     ∧ evictions "article" (trace w500) = 1
     ∧ pending w500 = [AwaitGetMany "Article" "article"])
  ∧ (rows w_end "Article" = 250 ∧ pending w_end = []
     ∧ (table_of w_end "Article" !! 249%N = None)
     ∧ is_Some (table_of w_end "Article" !! 250%N)
     ∧ tableCounters w_end !! "article" = Some 0).
Proof. vm_compute. repeat split; eauto. Qed.

(** *** One eviction, awaited *)

Lemma evict_outcome entity tn w : outcome_of (evict entity tn) w = Ok tt.
Proof. destruct w as [c p em tb nf o lg tr]. run. repeat fork; reflexivity. Qed.

(** An awaited eviction runs to its end: more fuel changes nothing. *)
Lemma drive_enough k n w :
  drive (awaits_left k + n) k w = drive (awaits_left k) k w.
Proof.
  destruct w as [c p em tb nf o lg tr], k; cbn [awaits_left Nat.add drive]; run;
    repeat fork; reflexivity.
Qed.

Lemma evict_service entity tn w :
  tableCounters (exec (evict entity tn) w) = tableCounters w ∧
  pending (exec (evict entity tn) w) = pending w ∧
  entityMetadatas (exec (evict entity tn) w) = entityMetadatas w ∧
  nulls_first (exec (evict entity tn) w) = nulls_first w.
Proof. destruct w as [c p em tb nf o lg tr]. run. repeat fork; auto. Qed.

Lemma evict_trace entity tn w :
  ∃ new, trace (exec (evict entity tn) w) = new ++ EvLimpar tn :: trace w ∧
         forallb store_event new = true.
Proof. destruct w as [c p em tb nf o lg tr]. run. repeat fork; pick_prefix. Qed.

Lemma evict_oracle entity tn w :
  ∃ n, oracle (exec (evict entity tn) w) = drop n (oracle w).
Proof. destruct w as [c p em tb nf o lg tr]. run. repeat fork; pick_drop. Qed.

Lemma evict_tables_ne entity tn w x :
  x ≠ entity →
  tables (exec (evict entity tn) w) !! x = tables w !! x.
Proof.
  intros Hx. destruct w as [c p em tb nf o lg tr]. run.
  repeat fork; try reflexivity; by rewrite lookup_alter_ne.
Qed.

(** *** One table reconciled *)

Lemma verificar_entity_outcome e w : outcome_of (verificar_entity e) w = Ok tt.
Proof. destruct w as [c p em tb nf o lg tr]. run. repeat fork; reflexivity. Qed.

Lemma verificar_entity_counters e w :
  tableCounters (exec (verificar_entity e) w) = tableCounters w ∨
  ∃ count, tableCounters (exec (verificar_entity e) w) =
           <[tableName e := count mod LIMITE_REGISTROS]> (tableCounters w).
Proof.
  destruct w as [c p em tb nf o lg tr]. run.
  repeat fork; first [by left | right; eexists; reflexivity].
Qed.

(** *** The counters stay below the threshold *)

Lemma bounded_insert (c : gmap string nat) t n :
  n < LIMITE_REGISTROS →
  map_Forall (λ _ n, n < LIMITE_REGISTROS) c →
  map_Forall (λ _ n, n < LIMITE_REGISTROS) (<[t := n]> c).
Proof. intros Hn Hc. by apply map_Forall_insert_2. Qed.

Lemma afterInsert_bounded e w :
  map_Forall (λ _ n, n < LIMITE_REGISTROS) (tableCounters w) →
  map_Forall (λ _ n, n < LIMITE_REGISTROS) (tableCounters (exec (afterInsert e) w)).
Proof.
  intros Hw. rewrite afterInsert_counters. apply bounded_insert; [|done].
  destruct (LIMITE_REGISTROS <=? _) eqn:Hc;
    [unfold LIMITE_REGISTROS; lia|by apply Nat.leb_gt in Hc].
Qed.

Lemma step_bounded a w :
  map_Forall (λ _ n, n < LIMITE_REGISTROS) (tableCounters w) →
  map_Forall (λ _ n, n < LIMITE_REGISTROS) (tableCounters (exec (step a) w)).
Proof.
  intros Hw. destruct a as [entity id row|i|repository id]; simpl.
  - destruct (save_eq entity id row w) as [H|[t H]]; unfold exec; rewrite H.
    + done.
    + by apply afterInsert_bounded.
  - by rewrite resume_pending_counters.
  - done.
Qed.

Lemma verificar_entity_bounded e w :
  map_Forall (λ _ n, n < LIMITE_REGISTROS) (tableCounters w) →
  map_Forall (λ _ n, n < LIMITE_REGISTROS)
             (tableCounters (exec (verificar_entity e) w)).
Proof.
  intros Hw. destruct (verificar_entity_counters e w) as [->|[count ->]]; [done|].
  apply bounded_insert; [|done]. apply Nat.mod_upper_bound. done.
Qed.

Lemma exec_verificar_entities_cons e es w :
  exec (verificar_entities (e :: es)) w =
  exec (verificar_entities es) (exec (verificar_entity e) w).
Proof. simpl. apply exec_bind with (a := tt), verificar_entity_outcome. Qed.

Lemma exec_verificar_entities_app es es' w :
  exec (verificar_entities (es ++ es')) w =
  exec (verificar_entities es') (exec (verificar_entities es) w).
Proof.
  revert w. induction es as [|e es IH]; intros w; [done|].
  rewrite <- app_comm_cons, !exec_verificar_entities_cons. apply IH.
Qed.

Lemma verificar_entities_bounded es w :
  map_Forall (λ _ n, n < LIMITE_REGISTROS) (tableCounters w) →
  map_Forall (λ _ n, n < LIMITE_REGISTROS)
             (tableCounters (exec (verificar_entities es) w)).
Proof.
  revert w. induction es as [|e es IH]; intros w Hw; [done|].
  rewrite exec_verificar_entities_cons. by apply IH, verificar_entity_bounded.
Qed.

Lemma exec_verificarEstadoAtual w :
  exec verificarEstadoAtual w = exec (verificar_entities (entityMetadatas w)) w.
Proof. reflexivity. Qed.

(** C7. In every state the program can reach, every counter in the map
    is below the threshold of 500; so are, from such a state, the counter
    [afterInsert] leaves for the table of its event and every counter
    left by the reconciliation of a table.  (A counter is a natural
    number, so it is never below 0.) *)
Theorem counters_below_threshold w :
  reachable w →
  map_Forall (λ _ n, n < LIMITE_REGISTROS) (tableCounters w)
  ∧ (∀ e, ∃ n, tableCounters (exec (afterInsert e) w) !! tableName e = Some n
               ∧ n < LIMITE_REGISTROS)
  ∧ (∀ e, map_Forall (λ _ n, n < LIMITE_REGISTROS)
                     (tableCounters (exec (verificar_entity e) w))).
Proof.
  intros Hw.
  assert (map_Forall (λ _ n, n < LIMITE_REGISTROS) (tableCounters w)) as Hb.
  { induction Hw as [| w _ IH | w a _ IH | w faults _ IH].
    - apply map_Forall_empty.
    - rewrite exec_verificarEstadoAtual. by apply verificar_entities_bounded.
    - by apply step_bounded.
    - done. }
  split; [done|]. split.
  - intros e. pose proof (afterInsert_bounded e w Hb) as He.
    rewrite afterInsert_counters in He |- *. rewrite lookup_insert_eq.
    eexists; split; [done|].
    eapply He. apply lookup_insert_eq.
  - intros e. by apply verificar_entity_bounded.
Qed.

(** An instance: the state after one row is saved on a table of two. *)
Lemma counters_below_threshold_witness :
  let w := exec (step (Save artigos 7 (mkRow (Some 3%Z) None))) (sample_world 2 []) in
  reachable w ∧ tableCounters w !! "article" = Some 1 ∧ 1 < LIMITE_REGISTROS.
Proof.
  intros w.
  assert (reachable w) as Hw by apply reach_step, reach_start.
  split; [exact Hw|].
  assert (tableCounters w !! "article" = Some 1) as H1 by (vm_compute; reflexivity).
  split; [exact H1|].
  exact (proj1 (counters_below_threshold w Hw) "article" 1 H1).
Defined.

(** *** What one eviction does to its table *)

Lemma table_of_eq w x t : tables w !! x = Some t → table_of w x = t.
Proof. unfold table_of. by intros ->. Qed.

Lemma alter_lookup_Some {A} (f : A → A) (m : gmap string A) x a :
  m !! x = Some a → alter f x m !! x = Some (f a).
Proof. intros H. by rewrite lookup_alter_eq, H. Qed.

Lemma delete_rows_take_size ids (t : gmap N Row) k :
  NoDup ids → (∀ i, i ∈ ids → is_Some (t !! i)) →
  size (delete_rows (take k ids) t) = size t - min k (length ids).
Proof.
  intros Hnd Hin. rewrite size_delete_rows.
  - by rewrite length_take.
  - rewrite <- (take_drop k ids) in Hnd. by apply NoDup_app in Hnd as (? & _ & _).
  - intros i Hi. apply Hin. rewrite <- (take_drop k ids). set_solver.
Qed.

Lemma registros_antigos_NoDup nf t : NoDup (registros_antigos nf t).*1.
Proof.
  pose proof (oldest_first_NoDup nf t) as Hnd.
  rewrite registros_antigos_split, fmap_app in Hnd.
  by apply NoDup_app in Hnd as (? & _ & _).
Qed.

Lemma registros_antigos_ids nf t i :
  i ∈ (registros_antigos nf t).*1 → is_Some (t !! i).
Proof.
  intros [[i' r] [-> Hir]]%list_elem_of_fmap. simpl.
  rewrite (registros_antigos_in _ _ _ _ Hir). eauto.
Qed.

(** Whatever the store does, the table is left with some of the oldest
    rows deleted: those of the query, up to the point a failure cut the
    deletion short. *)
Lemma evict_table entity tn w t :
  tables w !! entity = Some t →
  ∃ k, tables (exec (evict entity tn) w) !! entity =
       Some (delete_rows (take k (registros_antigos (nulls_first w) t).*1) t).
Proof.
  intros Ht. destruct w as [c p em tb nf o lg tr]. run.
  repeat fork; fold (registros_antigos nf t);
    first [ by exists 0
          | exists REGISTROS_PARA_REMOVER;
            rewrite take_ge
              by (rewrite length_fmap, registros_antigos_length; lia);
            by apply alter_lookup_Some
          | eexists; by apply alter_lookup_Some ].
Qed.

Lemma evict_table_healthy entity tn w t :
  tables w !! entity = Some t → healthy w →
  tables (exec (evict entity tn) w) !! entity = Some (evicted (nulls_first w) t).
Proof.
  intros Ht Ho. destruct w as [c p em tb nf o lg tr]. run.
  unfold evicted, registros_antigos.
  destruct o as [|o1 [|o2 o]];
    repeat match goal with
           | H : Forall _ (_ :: _) |- _ => inversion H; subst; clear H
           end; run_prims;
    (destruct (0 <? length (take _ _)) eqn:Hlen; run_prims;
     [by apply alter_lookup_Some|]);
    apply Nat.ltb_ge in Hlen;
    destruct (take _ _); simpl in *; (done || lia).
Qed.

Lemma NoDup_fmap_inj_on {A B} (f : A → B) (l : list A) x y :
  NoDup (f <$> l) → x ∈ l → y ∈ l → f x = f y → x = y.
Proof.
  induction l as [|a l IH]; csimpl; intros Hnd Hx Hy Heq.
  - by apply elem_of_nil in Hx.
  - apply NoDup_cons in Hnd as [Hv Hnd].
    apply elem_of_cons in Hx as [->|Hx], Hy as [->|Hy]; try done.
    + exfalso. apply Hv. rewrite Heq. by apply list_elem_of_fmap_2.
    + exfalso. apply Hv. rewrite <- Heq. by apply list_elem_of_fmap_2.
    + by apply IH.
Qed.


(** C2. One eviction of a table, run to its end: the table loses rows
    only, never more than 250 whatever the store does, and, when no call
    to the store fails, exactly min(250, rows of the table). *)
Theorem batch_bound w entity tn t :
  tables w !! entity = Some t →
  let w' := exec (evict entity tn) w in
  table_of w' entity ⊆ t
  ∧ size t - rows w' entity ≤ REGISTROS_PARA_REMOVER
  ∧ (healthy w →
     size t - rows w' entity = min REGISTROS_PARA_REMOVER (size t)).
Proof.
  intros Ht w'. unfold rows.
  destruct (evict_table entity tn w t Ht) as [k Hk]. fold w' in Hk.
  rewrite (table_of_eq _ _ _ Hk).
  split; [apply delete_rows_subseteq|]. split.
  - rewrite delete_rows_take_size
      by eauto using registros_antigos_NoDup, registros_antigos_ids.
    rewrite length_fmap, registros_antigos_length. lia.
  - intros Ho. pose proof (evict_table_healthy entity tn w t Ht Ho) as He.
    fold w' in He. rewrite Hk in He. injection He as ->.
    rewrite evicted_size.
    pose proof (Nat.le_min_r REGISTROS_PARA_REMOVER (size t)). lia.
Qed.

(** An instance: a table of 300 rows loses 250. *)
Lemma batch_bound_witness :
  let w := sample_world 300 [] in
  let w' := exec (evict "Article" "article") w in
  tables w !! "Article" = Some (sample_rows 300)
  ∧ healthy w
  ∧ size (sample_rows 300) - rows w' "Article"
    = min REGISTROS_PARA_REMOVER (size (sample_rows 300)).
Proof.
  intros w w'.
  assert (tables w !! "Article" = Some (sample_rows 300)) as Ht by reflexivity.
  assert (healthy w) as Ho by apply Forall_nil_2.
  split; [exact Ht|]. split; [exact Ho|].
  exact (proj2 (proj2 (batch_bound w "Article" "article" _ Ht)) Ho).
Defined.



(** C9. Evicting an empty table: the call returns normally, the tables
    are as they were, the only call to the store is the query (no
    delete), and nothing is logged, unless the query itself fails, which
    is logged as an error. *)
Theorem evict_empty_table w entity tn :
  tables w !! entity = Some ∅ →
  let w' := exec (evict entity tn) w in
  outcome_of (evict entity tn) w = Ok tt
  ∧ tables w' = tables w
  ∧ rows w' entity = rows w entity
  ∧ trace w' = EvGetMany entity REGISTROS_PARA_REMOVER :: EvLimpar tn :: trace w
  ∧ log w' = if store_fails w
             then (ERROR, ErroAoLimpar tn QueryFailedError) :: log w
             else log w.
Proof.
  intros Ht. destruct w as [c p em tb nf o lg tr]. unfold store_fails. run.
  destruct o as [|[|k] o]; run_prims;
    rewrite ?oldest_first_empty, ?take_nil; cbn [length Nat.ltb Nat.leb];
    run_prims; done.
Qed.

(** An instance: the empty table of the sample world. *)
Lemma evict_empty_table_witness :
  let w := sample_world 0 [] in
  let w' := exec (evict "Article" "article") w in
  tables w !! "Article" = Some ∅
  ∧ outcome_of (evict "Article" "article") w = Ok tt
  ∧ tables w' = tables w
  ∧ log w' = log w.
Proof.
  intros w w'.
  assert (tables w !! "Article" = Some ∅) as Ht by reflexivity.
  split; [exact Ht|].
  pose proof (evict_empty_table w "Article" "article" Ht) as (H1 & H2 & _ & _ & H5).
  split; [exact H1|]. split; [exact H2|exact H5].
Defined.

(** *** One table reconciled, case by case *)

Lemma verificar_entity_unknown w e :
  tables w !! target e = None →
  exec (verificar_entity e) w =
  set_log (cons (ERROR, ErroAoVerificar (tableName e)
                          (EntityMetadataNotFound (target e)))) w.
Proof. intros Ht. destruct w as [c p em tb nf o lg tr]. run. done. Qed.

Lemma verificar_entity_count_fails w e t :
  tables w !! target e = Some t → store_fails w = true →
  exec (verificar_entity e) w =
  set_log (cons (ERROR, ErroAoVerificar (tableName e) QueryFailedError))
    (set_oracle (drop 1) (set_trace (cons (EvCount (target e))) w)).
Proof.
  intros Ht Hq. destruct w as [c p em tb nf o lg tr]. unfold store_fails in Hq.
  run. destruct o as [|[|k] o]; try done.
Qed.

Lemma verificar_entity_under w e t :
  tables w !! target e = Some t → store_fails w = false →
  (LIMITE_REGISTROS <=? size t) = false →
  exec (verificar_entity e) w =
  set_log (cons (INFO, EstadoVerificado (tableName e) (size t)))
    (set_tableCounters <[tableName e := size t mod LIMITE_REGISTROS]>
      (set_oracle (drop 1) (set_trace (cons (EvCount (target e))) w))).
Proof.
  intros Ht Hq Hlt. destruct w as [c p em tb nf o lg tr]. unfold store_fails in Hq.
  run. destruct o as [|[|k] o]; try done; run_prims; by rewrite Hlt.
Qed.

Lemma verificar_entity_over w e t :
  tables w !! target e = Some t → store_fails w = false →
  (LIMITE_REGISTROS <=? size t) = true →
  exec (verificar_entity e) w =
  set_log (cons (INFO, EstadoVerificado (tableName e) (size t)))
    (set_tableCounters <[tableName e := size t mod LIMITE_REGISTROS]>
      (exec (evict (target e) (tableName e))
        (set_log (cons (WARN, TabelaExcedeu (tableName e) (size t)
                                LIMITE_REGISTROS))
          (set_oracle (drop 1) (set_trace (cons (EvCount (target e))) w))))).
Proof.
  intros Ht Hq Hge. destruct w as [c p em tb nf o lg tr]. unfold store_fails in Hq.
  run. destruct o as [|[|k] o]; try done; run_prims; rewrite Hge;
    run_prims; repeat fork; reflexivity.
Qed.

Lemma healthy_query w : healthy w → store_fails w = false.
Proof.
  unfold healthy, store_fails. destruct (oracle w) as [|[|k] o]; try done.
  by inversion 1.
Qed.

Lemma healthy_drop w w' n :
  oracle w' = drop n (oracle w) → healthy w → healthy w'.
Proof. unfold healthy. intros ->. apply Forall_drop. Qed.

(** Reconciling one table leaves the others alone. *)
Lemma verificar_entity_frame e' w x tn :
  target e' ≠ x → tableName e' ≠ tn →
  tables (exec (verificar_entity e') w) !! x = tables w !! x
  ∧ tableCounters (exec (verificar_entity e') w) !! tn = tableCounters w !! tn
  ∧ evictions tn (trace (exec (verificar_entity e') w)) = evictions tn (trace w)
  ∧ (healthy w → healthy (exec (verificar_entity e') w)).
Proof.
  intros Hx Htn.
  destruct (tables w !! target e') as [t'|] eqn:Ht';
    [|by rewrite verificar_entity_unknown].
  destruct (store_fails w) eqn:Hq.
  { rewrite (verificar_entity_count_fails w e' t') by done.
    repeat split; try done. by apply healthy_drop with (n := 1). }
  destruct (LIMITE_REGISTROS <=? size t') eqn:Hsz.
  - rewrite (verificar_entity_over w e' t') by done.
    set (w0 := set_log _ (set_oracle _ _)).
    destruct (evict_service (target e') (tableName e') w0) as (Hc & _).
    destruct (evict_trace (target e') (tableName e') w0) as (new & Htr & Hs).
    destruct (evict_oracle (target e') (tableName e') w0) as [n Ho].
    cbn [tables tableCounters trace set_log set_tableCounters].
    split; [by rewrite evict_tables_ne|].
    split; [by rewrite lookup_insert_ne, Hc|].
    split.
    + rewrite Htr, evictions_store by done. simpl. by rewrite decide_False.
    + intros Hw. apply healthy_drop with (w := w0) (n := n); [done|].
      by apply healthy_drop with (w := w) (n := 1).
  - rewrite (verificar_entity_under w e' t') by done.
    cbn [tables tableCounters trace set_log set_tableCounters].
    repeat split; try done.
    + by rewrite lookup_insert_ne.
    + by apply healthy_drop with (n := 1).
Qed.

Lemma verificar_entities_frame es w x tn :
  (∀ e', e' ∈ es → target e' ≠ x ∧ tableName e' ≠ tn) →
  tables (exec (verificar_entities es) w) !! x = tables w !! x
  ∧ tableCounters (exec (verificar_entities es) w) !! tn = tableCounters w !! tn
  ∧ evictions tn (trace (exec (verificar_entities es) w)) = evictions tn (trace w)
  ∧ (healthy w → healthy (exec (verificar_entities es) w)).
Proof.
  revert w. induction es as [|e' es IH]; intros w Hes; [done|].
  rewrite exec_verificar_entities_cons.
  destruct (Hes e') as [Hx Htn]; [by left|].
  destruct (verificar_entity_frame e' w x tn Hx Htn) as (H1 & H2 & H3 & H4).
  destruct (IH (exec (verificar_entity e') w)) as (I1 & I2 & I3 & I4).
  { intros e'' He''. apply Hes. by right. }
  rewrite I1, I2, I3, H1, H2, H3. repeat split; auto.
Qed.

(** A table at or over the threshold, reconciled while the store works. *)
Lemma verificar_entity_over_healthy w e t :
  tables w !! target e = Some t → healthy w →
  LIMITE_REGISTROS ≤ size t →
  tables (exec (verificar_entity e) w) !! target e
    = Some (evicted (nulls_first w) t)
  ∧ tableCounters (exec (verificar_entity e) w) !! tableName e
    = Some (size t mod LIMITE_REGISTROS)
  ∧ evictions (tableName e) (trace (exec (verificar_entity e) w))
    = S (evictions (tableName e) (trace w))
  ∧ healthy (exec (verificar_entity e) w).
Proof.
  intros Ht Hw Hsz. apply Nat.leb_le in Hsz.
  rewrite (verificar_entity_over w e t) by auto using healthy_query.
  set (w0 := set_log _ (set_oracle _ _)).
  assert (healthy w0) as Hw0 by by apply healthy_drop with (w := w) (n := 1).
  destruct (evict_trace (target e) (tableName e) w0) as (new & Htr & Hs).
  destruct (evict_oracle (target e) (tableName e) w0) as [n Ho].
  cbn [tables tableCounters trace set_log set_tableCounters].
  split; [by apply (evict_table_healthy _ _ w0)|].
  split; [by rewrite lookup_insert_eq|].
  split.
  - rewrite Htr, evictions_store by done. simpl. by rewrite decide_True.
  - by apply healthy_drop with (w := w0) (n := n).
Qed.

Lemma reconcile_over_threshold w e es1 es2 t :
  entityMetadatas w = es1 ++ e :: es2 →
  (∀ e', e' ∈ es1 ++ es2 → target e' ≠ target e ∧ tableName e' ≠ tableName e) →
  tables w !! target e = Some t → healthy w →
  LIMITE_REGISTROS ≤ size t →
  let w' := exec verificarEstadoAtual w in
  evictions (tableName e) (trace w') = S (evictions (tableName e) (trace w))
  ∧ tables w' !! target e = Some (evicted (nulls_first w) t)
  ∧ tableCounters w' !! tableName e = Some (size t mod LIMITE_REGISTROS).
Proof.
  intros Hes Hothers Ht Hw Hsz w'. unfold w'.
  rewrite exec_verificarEstadoAtual, Hes.
  rewrite exec_verificar_entities_app, exec_verificar_entities_cons.
  set (w1 := exec (verificar_entities es1) w).
  destruct (verificar_entities_frame es1 w (target e) (tableName e))
    as (A1 & A2 & A3 & A4).
  { intros e' He'. apply Hothers, elem_of_app. by left. }
  fold w1 in A1, A2, A3, A4.
  assert (nulls_first w1 = nulls_first w) as Hnf.
  { unfold w1. clear. revert w. induction es1 as [|e0 es IH]; intros w; [done|].
    rewrite exec_verificar_entities_cons, IH.
    destruct (tables w !! target e0) as [t'|] eqn:Ht';
      [|by rewrite verificar_entity_unknown].
    destruct (store_fails w) eqn:Hq;
      [by rewrite (verificar_entity_count_fails w e0 t')|].
    destruct (LIMITE_REGISTROS <=? size t') eqn:Hsz;
      [|by rewrite (verificar_entity_under w e0 t')].
    rewrite (verificar_entity_over w e0 t') by done.
    cbn [nulls_first set_log set_tableCounters].
    by destruct (evict_service (target e0) (tableName e0)
      (set_log (cons (WARN, TabelaExcedeu (tableName e0) (size t') LIMITE_REGISTROS))
         (set_oracle (drop 1) (set_trace (cons (EvCount (target e0))) w))))
      as (_ & _ & _ & ->). }
  destruct (verificar_entity_over_healthy w1 e t) as (B1 & B2 & B3 & B4);
    [by rewrite A1|auto|done|].
  destruct (verificar_entities_frame es2 (exec (verificar_entity e) w1)
              (target e) (tableName e)) as (C1 & C2 & C3 & _).
  { intros e' He'. apply Hothers, elem_of_app. by right. }
  rewrite C1, C2, C3, B1, B2, B3, A3, Hnf. done.
Qed.

(** C4. A table that holds 1240 rows when the server starts, with the
    store working: the reconciliation calls [limparRegistrosAntigos] for
    it exactly once, which removes one batch of 250 rows (990 remain),
    and leaves its counter at 240 = 1240 mod 500, the count read before
    the eviction. *)
Theorem reconciliation_seeds_from_count w e es1 es2 t :
  entityMetadatas w = es1 ++ e :: es2 →
  (∀ e', e' ∈ es1 ++ es2 → target e' ≠ target e ∧ tableName e' ≠ tableName e) →
  tables w !! target e = Some t → size t = 1240 → healthy w →
  let w' := exec verificarEstadoAtual w in
  evictions (tableName e) (trace w') = evictions (tableName e) (trace w) + 1
  ∧ rows w' (target e) = 990
  ∧ size t - rows w' (target e) ≤ REGISTROS_PARA_REMOVER
  ∧ tableCounters w' !! tableName e = Some (size t mod LIMITE_REGISTROS)
  ∧ tableCounters w' !! tableName e = Some 240.
Proof.
  intros Hes Hothers Ht Hsz Hw w'.
  destruct (reconcile_over_threshold w e es1 es2 t Hes Hothers Ht Hw)
    as (H1 & H2 & H3).
  { rewrite Hsz. unfold LIMITE_REGISTROS. lia. }
  fold w' in H1, H2, H3.
  assert (rows w' (target e) = 990) as Hrows.
  { unfold rows. rewrite (table_of_eq _ _ _ H2), evicted_size, Hsz. done. }
  split; [rewrite H1; lia|]. split; [done|].
  split; [rewrite Hrows, Hsz; unfold REGISTROS_PARA_REMOVER; lia|].
  split; [done|]. rewrite H3, Hsz. done.
Qed.

(** An instance: two tables, the second of 1240 rows. *)
Lemma reconciliation_seeds_from_count_witness :
  let w := two_tables [] in
  let w' := exec verificarEstadoAtual w in
  entityMetadatas w = [categorias] ++ artigos :: []
  ∧ size (sample_rows 1240) = 1240
  ∧ healthy w
  ∧ rows w' "Article" = 990
  ∧ tableCounters w' !! "article" = Some 240.
Proof.
  intros w w'.
  assert (entityMetadatas w = [categorias] ++ artigos :: []) as Hes by reflexivity.
  assert (∀ e', e' ∈ [categorias] ++ [] →
            target e' ≠ target artigos ∧ tableName e' ≠ tableName artigos) as Ho.
  { intros e' ->%list_elem_of_singleton. split; discriminate. }
  assert (tables w !! target artigos = Some (sample_rows 1240)) as Ht
    by reflexivity.
  assert (size (sample_rows 1240) = 1240) as Hsz by (vm_compute; reflexivity).
  assert (healthy w) as Hw by apply Forall_nil_2.
  split; [exact Hes|]. split; [exact Hsz|]. split; [exact Hw|].
  pose proof (reconciliation_seeds_from_count w artigos [categorias] [] _
                Hes Ho Ht Hsz Hw) as (_ & H2 & _ & _ & H5).
  split; [exact H2|exact H5].
Defined.

(** *** An eviction started by an insert *)

Lemma steps_no_save_counters acts w :
  forallb (negb ∘ is_save) acts = true →
  tableCounters (exec (steps acts) w) = tableCounters w.
Proof.
  revert w. induction acts as [|a acts IH]; intros w Hacts; [done|].
  apply andb_prop in Hacts as [Ha Hacts].
  rewrite exec_steps_cons, IH by done.
  destruct a as [entity id row|i|repository id]; [done|..|done].
  apply resume_pending_counters.
Qed.

(** With nothing else suspended and no insert in between, the eviction
    an insert starts does to the tables what an awaited one does. *)
Lemma reactive_eviction_tables w e :
  pending w = [] →
  (LIMITE_REGISTROS <=? counter w (tableName e) + 1) = true →
  tables (exec (steps [Resume 0; Resume 0]) (exec (afterInsert e) w))
  = tables (exec (evict (target e) (tableName e)) w)
  ∧ pending (exec (steps [Resume 0; Resume 0]) (exec (afterInsert e) w)) = [].
Proof.
  destruct w as [c p em tb nf o lg tr]. cbn [pending]. intros -> Hc.
  cbv [steps]. run. rewrite Hc. run_prims.
  destruct (tb !! target e) as [t|] eqn:Ht; run_prims; [|done].
  cbn [app lookup list_lookup delete list_delete]. run_prims.
  destruct o as [|[|k] o]; run_prims; try done;
    (destruct (0 <? length _) eqn:Hlen; run_prims; try done;
     cbn [app lookup list_lookup delete list_delete]; run_prims;
     repeat fork; done).
Qed.

(** C5, as the code has it.  An insert that reaches the threshold leaves
    the counter at 0, whatever becomes of the eviction it starts, and the
    counter is still 0 when that eviction ends if no insert came in
    between; the reconciliation of a table at or over the threshold
    leaves the counter at the count it read modulo 500, whatever becomes
    of the eviction. *)
Theorem counter_after_eviction w e :
  (LIMITE_REGISTROS ≤ counter w (tableName e) + 1 →
   ∀ acts, forallb (negb ∘ is_save) acts = true →
     tableCounters (exec (steps acts) (exec (afterInsert e) w)) !! tableName e
     = Some 0)
  ∧ (∀ t, tables w !! target e = Some t → store_fails w = false →
     LIMITE_REGISTROS ≤ size t →
     tableCounters (exec (verificar_entity e) w) !! tableName e
     = Some (size t mod LIMITE_REGISTROS)).
Proof.
  split.
  - intros Hc%Nat.leb_le acts Hacts.
    rewrite steps_no_save_counters, afterInsert_counters, Hc by done.
    apply lookup_insert_eq.
  - intros t Ht Hq Hsz%Nat.leb_le.
    rewrite (verificar_entity_over w e t) by done.
    cbn [tableCounters set_log set_tableCounters]. apply lookup_insert_eq.
Qed.

(** An instance: the 500th insert, and a delete that fails after one row. *)
Lemma counter_after_eviction_witness :
  let w := near_threshold 3 [Succeeds; Fails 1] in
  let w' := exec (steps [Resume 0; Resume 0]) (exec (afterInsert artigos) w) in
  LIMITE_REGISTROS ≤ counter w "article" + 1
  ∧ rows w' "Article" = 2
  ∧ tableCounters w' !! "article" = Some 0.
Proof.
  intros w w'.
  assert (LIMITE_REGISTROS ≤ counter w "article" + 1) as Hc
    by (vm_compute; constructor).
  split; [exact Hc|]. split; [vm_compute; reflexivity|].
  exact (proj1 (counter_after_eviction w artigos) Hc [Resume 0; Resume 0] eq_refl).
Defined.

(** C5 fails as stated: the reconciliation of a table of 1240 rows runs
    an eviction to its end and leaves the counter at 240; the same when
    the delete of that eviction fails. *)
Lemma counter_after_eviction_not_zero :
  let w := exec verificarEstadoAtual (sample_world 1240 []) in
  let w_failed := exec verificarEstadoAtual (sample_world 1240 [Succeeds; Succeeds; Fails 0]) in
  (evictions "article" (trace w) = 1 ∧ pending w = []
   ∧ rows w "Article" = 990
   ∧ tableCounters w !! "article" = Some 240)
  ∧ (evictions "article" (trace w_failed) = 1 ∧ pending w_failed = []
     ∧ rows w_failed "Article" = 1240
     ∧ tableCounters w_failed !! "article" = Some 240)
  ∧ Some 240 ≠ Some 0.
Proof. vm_compute. repeat split; done. Qed.

(** C6, as the code has it.  One eviction removes one batch.  With the
    store working and no insert in between, a table of [n] rows evicted
    at start-up is left with [n - 250] rows, one evicted after an insert
    reached the threshold with [n - min 250 n]; that is at most 250 when
    [n] was at most 500. *)
Theorem rows_after_eviction w e t :
  tables w !! target e = Some t → healthy w →
  (LIMITE_REGISTROS ≤ size t →
   rows (exec (verificar_entity e) w) (target e)
   = size t - REGISTROS_PARA_REMOVER)
  ∧ (pending w = [] → LIMITE_REGISTROS ≤ counter w (tableName e) + 1 →
     rows (exec (steps [Resume 0; Resume 0]) (exec (afterInsert e) w)) (target e)
     = size t - min REGISTROS_PARA_REMOVER (size t))
  ∧ (size t ≤ LIMITE_REGISTROS →
     size t - min REGISTROS_PARA_REMOVER (size t)
     ≤ LIMITE_REGISTROS - REGISTROS_PARA_REMOVER).
Proof.
  intros Ht Hw. split; [|split].
  - intros Hsz.
    destruct (verificar_entity_over_healthy w e t Ht Hw Hsz) as (H1 & _).
    unfold rows. rewrite (table_of_eq _ _ _ H1), evicted_size.
    unfold LIMITE_REGISTROS, REGISTROS_PARA_REMOVER in *. lia.
  - intros Hp Hc%Nat.leb_le.
    destruct (reactive_eviction_tables w e Hp Hc) as [Htb _].
    unfold rows, table_of. rewrite Htb.
    rewrite (evict_table_healthy _ _ w t Ht Hw). simpl. apply evicted_size.
  - unfold LIMITE_REGISTROS, REGISTROS_PARA_REMOVER. lia.
Qed.

(** An instance: 500 rows, the 500th insert, the eviction run. *)
Lemma rows_after_eviction_witness :
  let w := near_threshold 500 [] in
  let w' := exec (steps [Resume 0; Resume 0]) (exec (afterInsert artigos) w) in
  tables w !! "Article" = Some (sample_rows 500)
  ∧ healthy w ∧ pending w = []
  ∧ LIMITE_REGISTROS ≤ counter w "article" + 1
  ∧ rows w' "Article"
    = size (sample_rows 500) - min REGISTROS_PARA_REMOVER (size (sample_rows 500)).
Proof.
  intros w w'.
  assert (tables w !! target artigos = Some (sample_rows 500)) as Ht by reflexivity.
  assert (healthy w) as Hw by apply Forall_nil_2.
  assert (pending w = []) as Hp by reflexivity.
  assert (LIMITE_REGISTROS ≤ counter w "article" + 1) as Hc
    by (vm_compute; constructor).
  split; [exact Ht|]. split; [exact Hw|]. split; [exact Hp|]. split; [exact Hc|].
  exact (proj1 (proj2 (rows_after_eviction w artigos _ Ht Hw)) Hp Hc).
Defined.

(** C6 fails as stated: a table of 1240 rows evicted at start-up is left
    with 990 rows, not with 250 or fewer. *)
Lemma rows_after_eviction_above_floor :
  let w := exec verificarEstadoAtual (sample_world 1240 []) in
  evictions "article" (trace w) = 1 ∧ pending w = []
  ∧ rows w "Article" = 990
  ∧ ¬ (990 ≤ LIMITE_REGISTROS - REGISTROS_PARA_REMOVER).
Proof.
  vm_compute. repeat split; try done. lia.
Qed.

(** *** Nothing is thrown, nothing is rejected *)

Lemma verificar_entities_outcome es w :
  outcome_of (verificar_entities es) w = Ok tt.
Proof.
  revert w. induction es as [|e es IH]; intros w; [done|]. simpl.
  rewrite (outcome_bind _ _ _ tt) by apply verificar_entity_outcome. apply IH.
Qed.

Lemma afterInsert_no_rejection e w :
  ∃ new, trace (exec (afterInsert e) w) = new ++ trace w
         ∧ forallb (negb ∘ is_rejection) new = true.
Proof. destruct w as [c p em tb nf o lg tr]. run. repeat fork; pick_prefix. Qed.

Lemma verificar_entity_no_rejection e w :
  ∃ new, trace (exec (verificar_entity e) w) = new ++ trace w
         ∧ forallb (negb ∘ is_rejection) new = true.
Proof. destruct w as [c p em tb nf o lg tr]. run. repeat fork; pick_prefix. Qed.

Lemma store_event_no_rejection new :
  forallb store_event new = true → forallb (negb ∘ is_rejection) new = true.
Proof. induction new as [|[] new IH]; simpl; try done; auto. Qed.

Lemma no_rejection_app new tr :
  forallb (negb ∘ is_rejection) new = true →
  forallb (negb ∘ is_rejection) tr = true →
  forallb (negb ∘ is_rejection) (new ++ tr) = true.
Proof. intros H1 H2. by rewrite forallb_app, H1, H2. Qed.

Lemma step_no_rejection a w :
  forallb (negb ∘ is_rejection) (trace w) = true →
  forallb (negb ∘ is_rejection) (trace (exec (step a) w)) = true.
Proof.
  intros Hw. destruct a as [entity id row|i|repository id]; simpl.
  - destruct (save_eq entity id row w) as [H|[t H]]; unfold exec; rewrite H; [done|].
    destruct (afterInsert_no_rejection entity (set_tables <[target entity := t]> w))
      as (new & Hn & Hs).
    unfold exec in Hn. rewrite Hn. by apply no_rejection_app.
  - destruct (resume_pending_trace i w) as (new & -> & Hs).
    by apply no_rejection_app, Hw; apply store_event_no_rejection.
  - done.
Qed.

Lemma verificar_entities_no_rejection es w :
  forallb (negb ∘ is_rejection) (trace w) = true →
  forallb (negb ∘ is_rejection) (trace (exec (verificar_entities es) w)) = true.
Proof.
  revert w. induction es as [|e es IH]; intros w Hw; [done|].
  rewrite exec_verificar_entities_cons. apply IH.
  destruct (verificar_entity_no_rejection e w) as (new & -> & Hs).
  by apply no_rejection_app.
Qed.

Lemma reachable_no_rejection w :
  reachable w → forallb (negb ∘ is_rejection) (trace w) = true.
Proof.
  induction 1 as [| w _ IH | w a _ IH | w faults _ IH]; [done|..|done].
  - rewrite exec_verificarEstadoAtual. by apply verificar_entities_no_rejection.
  - by apply step_no_rejection.
Qed.

(** C8. No failure of the store leaves the service.  An eviction, the
    reconciliation, [afterInsert] and every move of the event loop
    return normally, and no promise is ever rejected unhandled.  When the
    next call to the store fails: a query for the oldest rows, or a
    delete, ends the eviction there, with one error line naming the
    table and nothing else changed but what the store itself did (the
    rows a failing delete had already removed); a count ends the
    reconciliation of that table the same way.  The failed call is made
    once.  [afterInsert] itself makes no call to the store: the eviction
    it starts is left to the event loop. *)
Theorem failures_recovered_locally w :
  (∀ entity tn, outcome_of (evict entity tn) w = Ok tt)
  ∧ outcome_of verificarEstadoAtual w = Ok tt
  ∧ (∀ a, outcome_of (step a) w = Ok tt)
  ∧ (∀ e, outcome_of (afterInsert e) w = Ok tt
          ∧ tables (exec (afterInsert e) w) = tables w
          ∧ oracle (exec (afterInsert e) w) = oracle w
          ∧ ∃ new, trace (exec (afterInsert e) w) = new ++ trace w
                   ∧ forallb (negb ∘ store_event) new = true)
  ∧ (reachable w → ∀ error, EvUnhandledRejection error ∉ trace w)
  ∧ (store_fails w = true →
     (∀ repository tn,
        resume (AwaitGetMany repository tn) w =
        (Ok None,
         set_log (cons (ERROR, ErroAoLimpar tn QueryFailedError))
           (set_oracle (drop 1)
             (set_trace (cons (EvGetMany repository REGISTROS_PARA_REMOVER)) w))))
     ∧ (∀ repository tn registrosAntigos,
        resume (AwaitRemove repository tn registrosAntigos) w =
        (Ok None,
         set_log (cons (ERROR, ErroAoLimpar tn QueryFailedError))
           (set_tables
              (alter (delete_rows (take (partial_of w) registrosAntigos.*1))
                     repository)
              (set_oracle (drop 1)
                (set_trace (cons (EvRemove repository registrosAntigos.*1)) w)))))
     ∧ (∀ e t, tables w !! target e = Some t →
        verificar_entity e w =
        (Ok tt,
         set_log (cons (ERROR, ErroAoVerificar (tableName e) QueryFailedError))
           (set_oracle (drop 1) (set_trace (cons (EvCount (target e))) w))))).
Proof.
  split; [intros; apply evict_outcome|].
  split; [apply verificar_entities_outcome|].
  split; [intros; apply step_outcome|].
  split.
  { intros e. split; [apply afterInsert_outcome|].
    destruct (afterInsert_store w e) as (-> & -> & _).
    do 2 (split; [done|]).
    rewrite afterInsert_trace. destruct (_ <=? _); [by eexists [_; _]|by eexists [_]]. }
  split.
  { intros Hw error Hin. apply reachable_no_rejection in Hw.
    rewrite forallb_forall in Hw. apply list_elem_of_In, Hw in Hin. done. }
  intros Hf. unfold store_fails, partial_of in *.
  destruct w as [c p em tb nf o lg tr]. run.
  destruct o as [|[|k] o]; try done.
  split; [done|]. split; [done|].
  intros e t Ht. by rewrite Ht.
Qed.

(** An instance: the query of a suspended eviction fails. *)
Lemma failures_recovered_locally_witness :
  let w := near_threshold 3 [Fails 2] in
  store_fails w = true
  ∧ resume (AwaitGetMany "Article" "article") w =
    (Ok None,
     set_log (cons (ERROR, ErroAoLimpar "article" QueryFailedError))
       (set_oracle (drop 1)
         (set_trace (cons (EvGetMany "Article" REGISTROS_PARA_REMOVER)) w))).
Proof.
  intros w.
  assert (store_fails w = true) as Hf by reflexivity.
  split; [exact Hf|].
  exact (proj1 (proj2 (proj2 (proj2 (proj2 (proj2
           (failures_recovered_locally w))))) Hf) "Article" "article").
Defined.

(** *** Every table gets its turn *)

Lemma verificar_entity_log e w :
  ∃ l rest, log (exec (verificar_entity e) w) = l :: rest ++ log w
            ∧ verdict_for (tableName e) l.
Proof.
  destruct w as [c p em tb nf o lg tr]. run. unfold verdict_for.
  repeat fork;
    first [ eexists _, []; split; [reflexivity|]
          | eexists _, [_]; split; [reflexivity|]
          | eexists _, [_; _]; split; [reflexivity|]
          | eexists _, [_; _; _]; split; [reflexivity|] ];
    first [ left; eexists; reflexivity | right; eexists; reflexivity ].
Qed.

Lemma verificar_entities_log es w :
  ∃ new, log (exec (verificar_entities es) w) = new ++ log w
         ∧ ∀ e, e ∈ es → ∃ l, l ∈ new ∧ verdict_for (tableName e) l.
Proof.
  revert w. induction es as [|e es IH]; intros w.
  { exists []. split; [done|]. by intros e ?%elem_of_nil. }
  rewrite exec_verificar_entities_cons.
  destruct (verificar_entity_log e w) as (l & rest & Hl & Hv).
  destruct (IH (exec (verificar_entity e) w)) as (new & Hn & Hes).
  exists (new ++ l :: rest). split.
  { by rewrite Hn, Hl, <- app_assoc. }
  intros e' [->|He']%elem_of_cons.
  - exists l. split; [|done]. apply elem_of_app. right. by left.
  - destruct (Hes e' He') as (l' & Hl' & Hv'). exists l'.
    split; [|done]. apply elem_of_app. by left.
Qed.

(** C10. When the count of a table fails at its turn in the
    reconciliation: the counters, the tables and the suspended calls are
    as they were, no eviction is started (the only event is the count),
    one error line names the table; and the reconciliation goes on with
    the tables after it, each of which gets its own line. *)
Theorem count_failure_skips_table w e es1 es2 t :
  entityMetadatas w = es1 ++ e :: es2 →
  let w1 := exec (verificar_entities es1) w in
  let w2 := exec (verificar_entity e) w1 in
  let w' := exec verificarEstadoAtual w in
  tables w1 !! target e = Some t → store_fails w1 = true →
  tableCounters w2 = tableCounters w1
  ∧ tables w2 = tables w1
  ∧ pending w2 = pending w1
  ∧ trace w2 = EvCount (target e) :: trace w1
  ∧ log w2 = (ERROR, ErroAoVerificar (tableName e) QueryFailedError) :: log w1
  ∧ w' = exec (verificar_entities es2) w2
  ∧ ∃ new, log w' = new ++ log w2
           ∧ ∀ e', e' ∈ es2 → ∃ l, l ∈ new ∧ verdict_for (tableName e') l.
Proof.
  intros Hes w1 w2 w' Ht Hf.
  assert (w' = exec (verificar_entities es2) w2) as Hw'.
  { unfold w'. rewrite exec_verificarEstadoAtual, Hes.
    by rewrite exec_verificar_entities_app, exec_verificar_entities_cons. }
  unfold w2 at 1 2 3 4 5. rewrite (verificar_entity_count_fails w1 e t Ht Hf).
  do 6 (split; [done|]). rewrite Hw'. apply verificar_entities_log.
Qed.

(** An instance: the count of the first of two tables fails. *)
Lemma count_failure_skips_table_witness :
  let w := failing_count in
  let w2 := exec (verificar_entity artigos) w in
  entityMetadatas w = [] ++ artigos :: [categorias]
  ∧ tables w !! "Article" = Some (sample_rows 4)
  ∧ store_fails w = true
  ∧ tableCounters w2 = tableCounters w
  ∧ exec verificarEstadoAtual w = exec (verificar_entities [categorias]) w2.
Proof.
  intros w w2.
  assert (entityMetadatas w = [] ++ artigos :: [categorias]) as Hes by reflexivity.
  assert (tables w !! target artigos = Some (sample_rows 4)) as Ht by reflexivity.
  assert (store_fails w = true) as Hf by reflexivity.
  split; [exact Hes|]. split; [exact Ht|]. split; [exact Hf|].
  pose proof (count_failure_skips_table w artigos [] [categorias] _ Hes Ht Hf)
    as (H1 & _ & _ & _ & _ & H6 & _).
  split; [exact H1|exact H6].
Defined.

(** ** Further properties of the service *)

Lemma announced_store t new tr :
  forallb store_event new = true → announced t (new ++ tr) = announced t tr.
Proof. induction new as [|[] new IH]; simpl; intros; auto; done. Qed.

Lemma paced_start metadatas tbls nf faults :
  paced (start metadatas tbls nf faults).
Proof.
  intros t. unfold counter.
  change (tableCounters (start metadatas tbls nf faults))
    with (∅ : gmap string nat).
  rewrite lookup_empty. unfold LIMITE_REGISTROS. simpl. split; lia.
Qed.

Lemma paced_afterInsert w e : paced w → paced (exec (afterInsert e) w).
Proof.
  intros Hw t. destruct (Hw t) as [Ht Hlt]. destruct (Hw (tableName e)) as [He Hlte].
  rewrite (counter_insert w _ _ t (exec (afterInsert e)) (afterInsert_counters w e)).
  rewrite afterInsert_trace.
  destruct (LIMITE_REGISTROS <=? counter w (tableName e) + 1) eqn:Hc;
    [apply Nat.leb_le in Hc|apply Nat.leb_gt in Hc];
    cbn [announced evictions];
    case_decide; subst; generalize dependent LIMITE_REGISTROS; intros; lia.
Qed.

Lemma paced_frame w w1 :
  tableCounters w1 = tableCounters w →
  (∃ new, trace w1 = new ++ trace w ∧ forallb store_event new = true) →
  paced w → paced w1.
Proof.
  intros Hc (new & Htr & Hs) Hw t. unfold counter. rewrite Hc, Htr.
  rewrite announced_store, evictions_store by done. apply Hw.
Qed.

Lemma paced_step a w : paced w → paced (exec (step a) w).
Proof.
  intros Hw. destruct a as [entity id row|i|repository id]; simpl.
  - destruct (save_eq entity id row w) as [H|[t H]]; unfold exec; rewrite H.
    + done.
    + apply paced_afterInsert. eapply paced_frame; [..|exact Hw].
      * done.
      * by exists [].
  - eapply paced_frame; [apply resume_pending_counters|apply resume_pending_trace|done].
  - eapply paced_frame; [..|exact Hw]; [done|by exists []].
Qed.

Lemma paced_steps acts w : paced w → paced (exec (steps acts) w).
Proof.
  revert w. induction acts as [|a acts IH]; intros w Hw; [done|].
  rewrite exec_steps_cons. by apply IH, paced_step.
Qed.

(** X1. From the moment the service is built, however saves, erasures
    and resumed evictions interleave: a table's counter is the number of
    inserts announced for it modulo 500, and [limparRegistrosAntigos] has
    been called for it once per 500 of them. *)
Theorem eviction_every_500_inserts metadatas tbls nf faults acts t :
  let w := exec (steps acts) (start metadatas tbls nf faults) in
  counter w t = announced t (trace w) mod LIMITE_REGISTROS
  ∧ evictions t (trace w) = announced t (trace w) / LIMITE_REGISTROS.
Proof.
  intros w.
  destruct (paced_steps acts _ (paced_start metadatas tbls nf faults) t)
    as [Heq Hlt].
  fold w in Heq, Hlt. split.
  - apply Nat.mod_unique with (q := evictions t (trace w)); done.
  - apply Nat.div_unique with (r := counter w t); done.
Qed.

(** *** Evictions started by an insert, once more *)

Lemma reactive_eviction_store w e :
  pending w = [] →
  (LIMITE_REGISTROS <=? counter w (tableName e) + 1) = true →
  oracle (exec (steps [Resume 0; Resume 0]) (exec (afterInsert e) w))
  = oracle (exec (evict (target e) (tableName e)) w)
  ∧ nulls_first (exec (steps [Resume 0; Resume 0]) (exec (afterInsert e) w))
    = nulls_first w.
Proof.
  destruct w as [c p em tb nf o lg tr]. cbn [pending]. intros -> Hc.
  cbv [steps]. run. rewrite Hc. run_prims.
  destruct (tb !! target e) as [t|] eqn:Ht; run_prims; [|done].
  cbn [app lookup list_lookup delete list_delete]. run_prims.
  destruct o as [|[|k] o]; run_prims; try done;
    (destruct (0 <? length _) eqn:Hlen; run_prims; try done;
     cbn [app lookup list_lookup delete list_delete]; run_prims;
     repeat fork; done).
Qed.

(** X2. With nothing else suspended and no insert in between, an
    eviction that [afterInsert] starts without awaiting it ends, after
    the event loop has resumed it twice, with the tables and the store as
    an awaited eviction leaves them, whatever the store's calls do; and
    nothing is left suspended. *)
Theorem started_eviction_matches_awaited w e :
  pending w = [] → LIMITE_REGISTROS ≤ counter w (tableName e) + 1 →
  let w' := exec (steps [Resume 0; Resume 0]) (exec (afterInsert e) w) in
  let w_awaited := exec (evict (target e) (tableName e)) w in
  tables w' = tables w_awaited
  ∧ oracle w' = oracle w_awaited
  ∧ pending w' = []
  ∧ tableCounters w' !! tableName e = Some 0.
Proof.
  intros Hp Hc%Nat.leb_le w' w_awaited.
  destruct (reactive_eviction_tables w e Hp Hc) as [Htb Hpe].
  destruct (reactive_eviction_store w e Hp Hc) as [Ho _].
  do 3 (split; [done|]). unfold w'.
  rewrite steps_no_save_counters, afterInsert_counters, Hc by done.
  apply lookup_insert_eq.
Qed.

(** An instance: the delete of the eviction fails after one row. *)
Lemma started_eviction_matches_awaited_witness :
  let w := near_threshold 3 [Succeeds; Fails 1] in
  let w' := exec (steps [Resume 0; Resume 0]) (exec (afterInsert artigos) w) in
  pending w = [] ∧ LIMITE_REGISTROS ≤ counter w "article" + 1
  ∧ tables w' = tables (exec (evict "Article" "article") w).
Proof.
  intros w w'.
  assert (pending w = []) as Hp by reflexivity.
  assert (LIMITE_REGISTROS ≤ counter w "article" + 1) as Hc
    by (vm_compute; constructor).
  split; [exact Hp|]. split; [exact Hc|].
  exact (proj1 (started_eviction_matches_awaited w artigos Hp Hc)).
Defined.

(** X3. An insert that reaches the threshold on a table of at most 250
    rows (rows were erased since they were counted) empties the table,
    the row just inserted included. *)
Theorem small_table_is_emptied w e t :
  tables w !! target e = Some t → healthy w → pending w = [] →
  LIMITE_REGISTROS ≤ counter w (tableName e) + 1 →
  size t ≤ REGISTROS_PARA_REMOVER →
  tables (exec (steps [Resume 0; Resume 0]) (exec (afterInsert e) w))
    !! target e = Some ∅.
Proof.
  intros Ht Hw Hp Hc%Nat.leb_le Hsz.
  destruct (reactive_eviction_tables w e Hp Hc) as [-> _].
  rewrite (evict_table_healthy _ _ w t Ht Hw). f_equal.
  apply map_size_empty_inv. rewrite evicted_size. lia.
Qed.

(** An instance: three rows are left in a table that saw 499 inserts. *)
Lemma small_table_is_emptied_witness :
  let w := set_tableCounters <["article" := 499]>
             (start [artigos] {[ "Article" := three_rows ]} true []) in
  tables w !! "Article" = Some three_rows ∧ healthy w ∧ pending w = []
  ∧ LIMITE_REGISTROS ≤ counter w "article" + 1
  ∧ size three_rows ≤ REGISTROS_PARA_REMOVER
  ∧ tables (exec (steps [Resume 0; Resume 0]) (exec (afterInsert artigos) w))
      !! "Article" = Some ∅.
Proof.
  intros w.
  assert (tables w !! target artigos = Some three_rows) as Ht by reflexivity.
  assert (healthy w) as Hw by apply Forall_nil_2.
  assert (pending w = []) as Hp by reflexivity.
  assert (LIMITE_REGISTROS ≤ counter w (tableName artigos) + 1) as Hc
    by (vm_compute; constructor).
  assert (size three_rows ≤ REGISTROS_PARA_REMOVER) as Hsz
    by (vm_compute; repeat constructor).
  split; [exact Ht|]. split; [exact Hw|]. split; [exact Hp|].
  split; [exact Hc|]. split; [exact Hsz|].
  exact (small_table_is_emptied w artigos _ Ht Hw Hp Hc Hsz).
Defined.

(** *** The delete of an eviction *)

(** X4. The delete of an eviction, whether it succeeds or fails, changes
    no row but those its query returned: the other tables, and in its own
    table every key that was not in the result of the query, are as they
    were.  A row saved since the query is not deleted. *)
Theorem delete_only_queried_rows w repository tn registrosAntigos x id :
  x ≠ repository ∨ id ∉ registrosAntigos.*1 →
  table_of (exec (resume (AwaitRemove repository tn registrosAntigos)) w) x !! id
  = table_of w x !! id.
Proof.
  intros Hx. destruct w as [c p em tb nf o lg tr]. run.
  assert (∀ ids, x ≠ repository ∨ id ∉ ids →
            default ∅ (alter (delete_rows ids) repository tb !! x) !! id
            = default ∅ (tb !! x) !! id) as Hkeep.
  { intros ids Hids. destruct (decide (repository = x)) as [->|Hne].
    - destruct Hids as [?|Hid]; [done|]. rewrite lookup_alter_eq.
      destruct (tb !! x) as [t|]; [|done]. simpl.
      rewrite lookup_delete_rows. by rewrite decide_False.
    - by rewrite lookup_alter_ne. }
  destruct o as [|[|k] o]; run_prims; apply Hkeep; try done.
  destruct Hx as [?|Hid]; [by left|right].
  intros Hin. apply Hid. rewrite <- (take_drop k). apply elem_of_app. by left.
Qed.

(** An instance: row 9, saved after the query returned rows 0 to 2. *)
Lemma delete_only_queried_rows_witness :
  let w := exec (step (Save artigos 9 (mkRow (Some 1%Z) None))) (sample_world 3 []) in
  let queried := registros_antigos false (sample_rows 3) in
  ((("Article" : string) ≠ "Article") ∨ 9%N ∉ queried.*1)
  ∧ table_of (exec (resume (AwaitRemove "Article" "article" queried)) w) "Article"
      !! 9%N = Some (mkRow (Some 1%Z) None).
Proof.
  intros w queried.
  assert (("Article" : string) ≠ "Article" ∨ 9%N ∉ queried.*1) as Hx.
  { right. apply (bool_decide_unpack _). vm_compute. reflexivity. }
  split; [exact Hx|].
  rewrite (delete_only_queried_rows w "Article" "article" queried _ _ Hx).
  vm_compute. reflexivity.
Defined.

(** *** More on the reconciliation *)

Lemma verificar_entity_under_healthy w e t :
  tables w !! target e = Some t → healthy w →
  size t < LIMITE_REGISTROS →
  tables (exec (verificar_entity e) w) !! target e = Some t
  ∧ tableCounters (exec (verificar_entity e) w) !! tableName e = Some (size t)
  ∧ evictions (tableName e) (trace (exec (verificar_entity e) w))
    = evictions (tableName e) (trace w)
  ∧ healthy (exec (verificar_entity e) w).
Proof.
  intros Ht Hw Hsz.
  rewrite (verificar_entity_under w e t)
    by (try apply Nat.leb_gt; auto using healthy_query).
  rewrite Nat.mod_small by done.
  cbn [tables tableCounters trace set_log set_tableCounters set_oracle set_trace].
  split; [done|]. split; [apply lookup_insert_eq|]. split; [done|].
  by apply healthy_drop with (w := w) (n := 1).
Qed.

Lemma verificar_entities_nulls_first es w :
  nulls_first (exec (verificar_entities es) w) = nulls_first w.
Proof.
  revert w. induction es as [|e0 es IH]; intros w; [done|].
  rewrite exec_verificar_entities_cons, IH.
  destruct (tables w !! target e0) as [t'|] eqn:Ht';
    [|by rewrite verificar_entity_unknown].
  destruct (store_fails w) eqn:Hq;
    [by rewrite (verificar_entity_count_fails w e0 t')|].
  destruct (LIMITE_REGISTROS <=? size t') eqn:Hsz;
    [|by rewrite (verificar_entity_under w e0 t')].
  rewrite (verificar_entity_over w e0 t') by done.
  cbn [nulls_first set_log set_tableCounters].
  by destruct (evict_service (target e0) (tableName e0)
    (set_log (cons (WARN, TabelaExcedeu (tableName e0) (size t') LIMITE_REGISTROS))
       (set_oracle (drop 1) (set_trace (cons (EvCount (target e0))) w))))
    as (_ & _ & _ & ->).
Qed.

(** X5. The reconciliation, with the store working, of a table of any
    size that no other entity shares: its counter is left at the number
    of rows it had modulo 500; if it had 500 rows or more, one eviction
    was called for it and took 250 of them, and otherwise none was and
    the table is as it was. *)
Theorem reconcile_any_count w e es1 es2 t :
  entityMetadatas w = es1 ++ e :: es2 →
  (∀ e', e' ∈ es1 ++ es2 → target e' ≠ target e ∧ tableName e' ≠ tableName e) →
  tables w !! target e = Some t → healthy w →
  let w' := exec verificarEstadoAtual w in
  tableCounters w' !! tableName e = Some (size t mod LIMITE_REGISTROS)
  ∧ (if LIMITE_REGISTROS <=? size t
     then evictions (tableName e) (trace w')
          = S (evictions (tableName e) (trace w))
          ∧ rows w' (target e) = size t - REGISTROS_PARA_REMOVER
     else evictions (tableName e) (trace w') = evictions (tableName e) (trace w)
          ∧ tables w' !! target e = Some t).
Proof.
  intros Hes Hothers Ht Hw w'.
  destruct (LIMITE_REGISTROS <=? size t) eqn:Hsz.
  - apply Nat.leb_le in Hsz.
    destruct (reconcile_over_threshold w e es1 es2 t Hes Hothers Ht Hw Hsz)
      as (H1 & H2 & H3).
    fold w' in H1, H2, H3. split; [done|]. split; [done|].
    unfold rows. rewrite (table_of_eq _ _ _ H2), evicted_size.
    unfold LIMITE_REGISTROS, REGISTROS_PARA_REMOVER in *. lia.
  - apply Nat.leb_gt in Hsz. unfold w'.
    rewrite exec_verificarEstadoAtual, Hes.
    rewrite exec_verificar_entities_app, exec_verificar_entities_cons.
    set (w1 := exec (verificar_entities es1) w).
    destruct (verificar_entities_frame es1 w (target e) (tableName e))
      as (A1 & A2 & A3 & A4).
    { intros e' He'. apply Hothers, elem_of_app. by left. }
    fold w1 in A1, A2, A3, A4.
    destruct (verificar_entity_under_healthy w1 e t) as (B1 & B2 & B3 & B4);
      [by rewrite A1|auto|done|].
    destruct (verificar_entities_frame es2 (exec (verificar_entity e) w1)
                (target e) (tableName e)) as (C1 & C2 & C3 & _).
    { intros e' He'. apply Hothers, elem_of_app. by right. }
    rewrite C1, C2, C3, B1, B2, B3, A3, Nat.mod_small by done. done.
Qed.

(** An instance: the three categories beside the 1240 articles. *)
Lemma reconcile_any_count_witness :
  let w := two_tables [] in
  entityMetadatas w = [] ++ categorias :: [artigos]
  ∧ tables w !! "Category" = Some three_rows
  ∧ healthy w
  ∧ tableCounters (exec verificarEstadoAtual w) !! "category"
    = Some (size three_rows mod LIMITE_REGISTROS).
Proof.
  intros w.
  assert (entityMetadatas w = [] ++ categorias :: [artigos]) as Hes by reflexivity.
  assert (∀ e', e' ∈ [] ++ [artigos] →
            target e' ≠ target categorias ∧ tableName e' ≠ tableName categorias) as Ho.
  { intros e' ->%list_elem_of_singleton. split; discriminate. }
  assert (tables w !! target categorias = Some three_rows) as Ht by reflexivity.
  assert (healthy w) as Hw by apply Forall_nil_2.
  split; [exact Hes|]. split; [exact Ht|]. split; [exact Hw|].
  exact (proj1 (reconcile_any_count w categorias [] [artigos] _ Hes Ho Ht Hw)).
Defined.

Lemma verificar_entity_pending e w :
  pending (exec (verificar_entity e) w) = pending w
  ∧ ∃ new, trace (exec (verificar_entity e) w) = new ++ trace w
           ∧ ∀ t, announced t new = 0.
Proof.
  destruct w as [c p em tb nf o lg tr]. run.
  repeat fork; (split; [done|]);
    first [ by exists [] | by eexists [_] | by eexists [_; _]
          | by eexists [_; _; _] | by eexists [_; _; _; _] ].
Qed.

Lemma announced_app t new tr :
  announced t (new ++ tr) = announced t new + announced t tr.
Proof. induction new as [|[] new IH]; simpl; auto. rewrite IH. lia. Qed.

Lemma verificar_entities_quiet es w t :
  pending (exec (verificar_entities es) w) = pending w
  ∧ announced t (trace (exec (verificar_entities es) w)) = announced t (trace w).
Proof.
  revert w. induction es as [|e es IH]; intros w; [done|].
  rewrite exec_verificar_entities_cons.
  destruct (verificar_entity_pending e w) as (Hp & new & Hn & Ha).
  destruct (IH (exec (verificar_entity e) w)) as [-> ->].
  rewrite Hp, Hn, announced_app, Ha. done.
Qed.

(** X6. The reconciliation awaits every eviction it starts and counts
    no insert: whatever the store does, it returns with the suspended
    calls as they were and with no insert announced to the service. *)
Theorem reconciliation_leaves_nothing_suspended w t :
  pending (exec verificarEstadoAtual w) = pending w
  ∧ announced t (trace (exec verificarEstadoAtual w)) = announced t (trace w).
Proof. rewrite exec_verificarEstadoAtual. apply verificar_entities_quiet. Qed.

(** *** A target without a repository *)

(** X7. When the data source has no repository for the target of an
    entity: an insert that reaches the threshold still resets the
    counter to 0, logs the threshold line and one error line for the
    table, calls the store not at all and leaves nothing suspended; and
    the reconciliation of the entity logs one error line and does not
    set its counter. *)
Theorem missing_repository w e :
  tables w !! target e = None →
  (LIMITE_REGISTROS ≤ counter w (tableName e) + 1 →
   exec (afterInsert e) w =
   set_tableCounters (λ _, <[tableName e := 0]> (tableCounters w))
     (set_log (λ l, (ERROR, ErroAoLimpar (tableName e)
                              (EntityMetadataNotFound (target e)))
                    :: (INFO, LimiteAtingido (tableName e)
                                (counter w (tableName e) + 1)) :: l)
        (set_trace (λ tr, EvLimpar (tableName e)
                          :: EvAfterInsert (tableName e) :: tr) w)))
  ∧ exec (verificar_entity e) w =
    set_log (cons (ERROR, ErroAoVerificar (tableName e)
                            (EntityMetadataNotFound (target e)))) w.
Proof.
  intros Ht. split; [|by apply verificar_entity_unknown].
  intros Hc%Nat.leb_le. destruct w as [c p em tb nf o lg tr]. run.
  rewrite Hc. run_prims. by rewrite insert_insert_eq.
Qed.

(** An instance: an entity the data source does not know. *)
Lemma missing_repository_witness :
  let w := near_threshold 3 [] in
  let e := mkEntity "Ghost" "article" in
  tables w !! "Ghost" = None
  ∧ LIMITE_REGISTROS ≤ counter w "article" + 1
  ∧ pending (exec (afterInsert e) w) = []
  ∧ tableCounters (exec (afterInsert e) w) !! "article" = Some 0.
Proof.
  intros w e.
  assert (tables w !! target e = None) as Ht by reflexivity.
  assert (LIMITE_REGISTROS ≤ counter w (tableName e) + 1) as Hc
    by (vm_compute; constructor).
  split; [exact Ht|]. split; [exact Hc|].
  rewrite (proj1 (missing_repository w e Ht) Hc).
  split; [reflexivity|]. vm_compute. reflexivity.
Defined.

(** *** What an eviction leaves *)

Lemma evict_healthy entity tn w :
  healthy w →
  healthy (exec (evict entity tn) w)
  ∧ nulls_first (exec (evict entity tn) w) = nulls_first w.
Proof.
  intros Hw. destruct (evict_oracle entity tn w) as [n Ho].
  destruct (evict_service entity tn w) as (_ & _ & _ & Hnf).
  split; [by apply healthy_drop with (w := w) (n := n)|done].
Qed.

(** X8. Two evictions of a table in a row, with the store working,
    remove min(500, rows) rows: each takes its own batch of the oldest. *)
Theorem two_evictions w entity tn t :
  tables w !! entity = Some t → healthy w →
  rows (exec (evict entity tn) (exec (evict entity tn) w)) entity
  = size t - min (2 * REGISTROS_PARA_REMOVER) (size t).
Proof.
  intros Ht Hw.
  pose proof (evict_table_healthy entity tn w t Ht Hw) as H1.
  destruct (evict_healthy entity tn w Hw) as [Hw1 Hnf].
  pose proof (evict_table_healthy entity tn _ _ H1 Hw1) as H2.
  unfold rows. rewrite (table_of_eq _ _ _ H2), !evicted_size.
  unfold REGISTROS_PARA_REMOVER. lia.
Qed.

(** An instance: 1240 rows, of which 740 are left. *)
Lemma two_evictions_witness :
  let w := sample_world 1240 [] in
  tables w !! "Article" = Some (sample_rows 1240) ∧ healthy w
  ∧ rows (exec (evict "Article" "article") (exec (evict "Article" "article") w))
         "Article"
    = size (sample_rows 1240) - min (2 * REGISTROS_PARA_REMOVER)
                                    (size (sample_rows 1240)).
Proof.
  intros w.
  assert (tables w !! "Article" = Some (sample_rows 1240)) as Ht by reflexivity.
  assert (healthy w) as Hw by apply Forall_nil_2.
  split; [exact Ht|]. split; [exact Hw|].
  exact (two_evictions w "Article" "article" _ Ht Hw).
Defined.




(** *** A full round of inserts *)

Lemma exec_steps_app acts acts' w :
  exec (steps (acts ++ acts')) w = exec (steps acts') (exec (steps acts) w).
Proof.
  revert w. induction acts as [|a acts IH]; intros w; [done|].
  rewrite <- app_comm_cons, !exec_steps_cons. apply IH.
Qed.

Lemma save_fresh e id row w t :
  tables w !! target e = Some t → t !! id = None →
  exec (step (Save e id row)) w
  = exec (afterInsert e) (set_tables <[target e := <[id := row]> t]> w).
Proof. intros Ht Hid. unfold exec. simpl. unfold save. by rewrite Ht, Hid. Qed.

(** Saves that stay under the threshold only add their rows and count. *)
Lemma saves_below_threshold e rs w t :
  tables w !! target e = Some t →
  NoDup rs.*1 → (∀ i, i ∈ rs.*1 → t !! i = None) →
  counter w (tableName e) + length rs < LIMITE_REGISTROS →
  let w' := exec (steps (save_all e rs)) w in
  ∃ t', tables w' !! target e = Some t'
        ∧ size t' = size t + length rs
        ∧ (∀ i, i ∉ rs.*1 → t' !! i = t !! i)
        ∧ counter w' (tableName e) = counter w (tableName e) + length rs
        ∧ pending w' = pending w
        ∧ oracle w' = oracle w.
Proof.
  revert w t. induction rs as [|[id row] rs IH]; intros w t Ht Hnd Hfresh Hc w'.
  { exists t. unfold w'. simpl. repeat split; auto; lia. }
  unfold w', save_all. rewrite fmap_cons, exec_steps_cons. cbn [fst snd].
  fold (save_all e rs). rewrite fmap_cons in Hnd, Hfresh. cbn [fst snd length] in *.
  apply NoDup_cons in Hnd as [Hid Hnd].
  rewrite (save_fresh e id row w t) by (try apply Hfresh; by (done || left)).
  set (w0 := set_tables _ w).
  set (w1 := exec (afterInsert e) w0).
  assert ((LIMITE_REGISTROS <=? counter w0 (tableName e) + 1) = false) as Hlt.
  { apply Nat.leb_gt. change (counter w0 (tableName e)) with (counter w (tableName e)).
    clear -Hc. unfold LIMITE_REGISTROS in *. lia. }
  assert (tables w1 !! target e = Some (<[id := row]> t)) as Ht1.
  { unfold w1. destruct (afterInsert_store w0 e) as (-> & _).
    unfold w0. cbn [tables set_tables]. apply lookup_insert_eq. }
  assert (counter w1 (tableName e) = counter w (tableName e) + 1) as Hc1.
  { unfold w1.
    rewrite (counter_insert w0 _ _ _ (exec (afterInsert e)) (afterInsert_counters w0 e)).
    by rewrite decide_True, Hlt by done. }
  destruct (IH w1 (<[id := row]> t)) as (t' & H1 & H2 & H3 & H4 & H5 & H6).
  { done. }
  { done. }
  { intros i Hi. rewrite lookup_insert_ne; [apply Hfresh; by right|].
    intros ->. done. }
  { unfold LIMITE_REGISTROS in *. lia. }
  exists t'. split; [done|].
  split. { rewrite H2, map_size_insert_None by (apply Hfresh; by left).
           cbn [length]. lia. }
  split. { intros i Hi. rewrite H3 by (intros ?; apply Hi; by right).
           apply lookup_insert_ne. intros ->. apply Hi. by left. }
  split; [cbn [length]; lia|].
  split. { rewrite H5. unfold w1. by rewrite afterInsert_pending, Hlt. }
  rewrite H6. unfold w1. by destruct (afterInsert_store w0 e) as (_ & -> & _).
Qed.

(** X10. Retention is not bounded.  With the store working, nothing
    suspended and the counter at 0, a round of 500 rows saved under new
    keys, the eviction the last one starts run to its end, leaves the
    table 250 rows larger than it was, and the service as at the start
    of the round: counter 0, nothing suspended. *)
Theorem table_grows_every_round w e t rs :
  tables w !! target e = Some t → healthy w → pending w = [] →
  counter w (tableName e) = 0 →
  length rs = LIMITE_REGISTROS →
  NoDup rs.*1 → (∀ i, i ∈ rs.*1 → t !! i = None) →
  let w' := exec (steps (save_all e rs ++ [Resume 0; Resume 0])) w in
  rows w' (target e) = size t + REGISTROS_PARA_REMOVER
  ∧ counter w' (tableName e) = 0
  ∧ pending w' = []
  ∧ healthy w'.
Proof.
  intros Ht Hw Hp Hc Hlen Hnd Hfresh w'.
  destruct (exists_last (l := rs)) as (rs0 & [id row] & ->).
  { intros ->. done. }
  rewrite length_app in Hlen. cbn [length] in Hlen.
  rewrite fmap_app in Hnd. apply NoDup_app in Hnd as (Hnd & Hdisj & _).
  unfold w', save_all. rewrite fmap_app, exec_steps_app, exec_steps_app.
  destruct (saves_below_threshold e rs0 w t Ht Hnd) as (t1 & H1 & H2 & H3 & H4 & H5 & H6).
  { intros i Hi. apply Hfresh. rewrite fmap_app. apply elem_of_app. by left. }
  { unfold LIMITE_REGISTROS in *. lia. }
  fold (save_all e rs0).
  set (w1 := exec (steps (save_all e rs0)) w) in *.
  assert (t1 !! id = None) as Hid.
  { rewrite H3.
    - apply Hfresh. rewrite fmap_app. apply elem_of_app. right. by left.
    - intros Hin. apply (Hdisj id Hin). by left. }
  rewrite (list_fmap_singleton (λ r, Save e r.1 r.2) (id, row)).
  cbn [fst snd]. rewrite (exec_steps_cons (Save e id row) [] w1).
  change (exec (steps []) (exec (step (Save e id row)) w1))
    with (exec (step (Save e id row)) w1).
  rewrite (save_fresh e id row w1 t1 H1 Hid).
  set (w2 := set_tables _ w1).
  assert (pending w2 = []) as Hp2 by (unfold w2; cbn; congruence).
  assert ((LIMITE_REGISTROS <=? counter w2 (tableName e) + 1) = true) as Hc2.
  { apply Nat.leb_le. change (counter w2 (tableName e)) with (counter w1 (tableName e)).
    unfold LIMITE_REGISTROS in *. lia. }
  assert (healthy w2) as Hw2.
  { unfold healthy, w2. cbn. rewrite H6. exact Hw. }
  assert (tables w2 !! target e = Some (<[id := row]> t1)) as Ht2.
  { unfold w2. cbn [tables set_tables]. apply lookup_insert_eq. }
  destruct (reactive_eviction_tables w2 e Hp2 Hc2) as [Htb Hpe].
  destruct (reactive_eviction_store w2 e Hp2 Hc2) as [Ho _].
  split.
  { unfold rows, table_of. rewrite Htb.
    rewrite (evict_table_healthy _ _ w2 _ Ht2 Hw2). simpl.
    rewrite evicted_size, map_size_insert_None by done.
    unfold LIMITE_REGISTROS, REGISTROS_PARA_REMOVER in *. lia. }
  split.
  { unfold counter.
    rewrite steps_no_save_counters, afterInsert_counters, Hc2 by done.
    by rewrite lookup_insert_eq. }
  split; [done|].
  destruct (evict_oracle (target e) (tableName e) w2) as [n Hn].
  apply healthy_drop with (w := w2) (n := n); [|done]. by rewrite Ho.
Qed.

(** An instance: a table of three rows is left with 253. *)
Lemma table_grows_every_round_witness :
  let w := start [artigos] {[ "Article" := three_rows ]} true [] in
  let w' := exec (steps (save_all artigos fresh_rows ++ [Resume 0; Resume 0])) w in
  tables w !! "Article" = Some three_rows ∧ healthy w ∧ pending w = []
  ∧ counter w "article" = 0 ∧ length fresh_rows = LIMITE_REGISTROS
  ∧ rows w' "Article" = size three_rows + REGISTROS_PARA_REMOVER.
Proof.
  intros w w'.
  assert (tables w !! target artigos = Some three_rows) as Ht by reflexivity.
  assert (healthy w) as Hw by apply Forall_nil_2.
  assert (pending w = []) as Hp by reflexivity.
  assert (counter w (tableName artigos) = 0) as Hc by reflexivity.
  assert (length fresh_rows = LIMITE_REGISTROS) as Hlen by (vm_compute; reflexivity).
  assert (NoDup fresh_rows.*1) as Hnd.
  { apply (bool_decide_unpack _). vm_compute. reflexivity. }
  assert (∀ i, i ∈ fresh_rows.*1 → three_rows !! i = None) as Hfresh.
  { apply Forall_forall. apply (bool_decide_unpack _). vm_compute. reflexivity. }
  split; [exact Ht|]. split; [exact Hw|]. split; [exact Hp|].
  split; [exact Hc|]. split; [exact Hlen|].
  exact (proj1 (table_grows_every_round w artigos _ _ Ht Hw Hp Hc Hlen Hnd Hfresh)).
Defined.

(** ** [formatDate] and the lines of the log *)

Example formatDate_sample : formatDate sample_date = "02-11-2026 19:52:07.045".
Proof. vm_compute. reflexivity. Qed.

Lemma string_length_app s t :
  String.length (s +:+ t) = String.length s + String.length t.
Proof. induction s as [|c s IH]; simpl; [done|]. by rewrite IH. Qed.

Lemma string_app_inj_length s1 s2 t1 t2 :
  String.length s1 = String.length s2 →
  s1 +:+ t1 = s2 +:+ t2 → s1 = s2 ∧ t1 = t2.
Proof.
  revert s2. induction s1 as [|c s1 IH]; intros [|c' s2] Hlen Heq;
    simpl in *; try done.
  injection Heq as -> Heq. destruct (IH s2) as [-> ->]; [lia|done|done].
Qed.

Lemma string_app_inj_length_r s1 s2 t1 t2 :
  String.length t1 = String.length t2 →
  s1 +:+ t1 = s2 +:+ t2 → s1 = s2 ∧ t1 = t2.
Proof.
  intros Hlen Heq. apply string_app_inj_length; [|done].
  apply (f_equal String.length) in Heq. rewrite !string_length_app in Heq. lia.
Qed.

Lemma pad2_length n :
  n < 100 → String.length (padStart 2 "0" (pretty n)) = 2.
Proof.
  intros Hn.
  assert (Forall (λ n, String.length (padStart 2 "0" (pretty n)) = 2) (seq 0 100))
    as Hall by (apply (bool_decide_unpack _); vm_compute; reflexivity).
  rewrite Forall_forall in Hall. apply Hall, elem_of_seq. lia.
Qed.

Lemma pad3_length n :
  n < 1000 → String.length (padStart 3 "0" (pretty n)) = 3.
Proof.
  intros Hn.
  assert (Forall (λ n, String.length (padStart 3 "0" (pretty n)) = 3) (seq 0 1000))
    as Hall by (apply (bool_decide_unpack _); vm_compute; reflexivity).
  rewrite Forall_forall in Hall. apply Hall, elem_of_seq. lia.
Qed.

Lemma pad2_inj n m :
  n < 100 → m < 100 →
  padStart 2 "0" (pretty n) = padStart 2 "0" (pretty m) → n = m.
Proof.
  intros Hn Hm.
  assert (NoDup ((λ n, padStart 2 "0" (pretty n)) <$> seq 0 100)) as Hnd
    by (apply (bool_decide_unpack _); vm_compute; reflexivity).
  apply (NoDup_fmap_inj_on _ _ n m Hnd); apply elem_of_seq; lia.
Qed.

Lemma pad3_inj n m :
  n < 1000 → m < 1000 →
  padStart 3 "0" (pretty n) = padStart 3 "0" (pretty m) → n = m.
Proof.
  intros Hn Hm.
  assert (NoDup ((λ n, padStart 3 "0" (pretty n)) <$> seq 0 1000)) as Hnd
    by (apply (bool_decide_unpack _); vm_compute; reflexivity).
  apply (NoDup_fmap_inj_on _ _ n m Hnd); apply elem_of_seq; lia.
Qed.

Lemma valid_date_ranges d :
  valid_date d = true →
  getDate d < 100 ∧ getMonth d + 1 < 100 ∧ getHours d < 100
  ∧ getMinutes d < 100 ∧ getSeconds d < 100 ∧ getMilliseconds d < 1000.
Proof.
  unfold valid_date. rewrite !andb_true_iff, !Nat.leb_le. lia.
Qed.

Lemma pretty_N_go_digit x s :
  (0 < x < 10)%N →
  String.length (pretty_N_go x s) = S (String.length s).
Proof.
  intros Hx. rewrite pretty_N_go_step by lia.
  rewrite N.div_small by lia. by rewrite pretty_N_go_0.
Qed.

Lemma div10_range (x lo hi : N) :
  (10 * lo ≤ x < 10 * hi)%N → (lo ≤ x `div` 10 < hi)%N.
Proof.
  intros [Hlo Hhi]. split.
  - by apply N.div_le_lower_bound.
  - by apply N.Div0.div_lt_upper_bound.
Qed.

(** A year from 1000 to 9999 prints as four characters. *)
Lemma pretty_year_length (y : Z) :
  (1000 ≤ y ≤ 9999)%Z → String.length (pretty y) = 4.
Proof.
  intros Hy. destruct y as [|p|p]; [lia| |lia].
  change (pretty (Z.pos p)) with (pretty (N.pos p)).
  unfold pretty, pretty_N. rewrite decide_False by done.
  assert (1000 ≤ N.pos p < 10000)%N as H3 by lia.
  pose proof (div10_range (N.pos p) 100 1000 ltac:(lia)) as H2.
  pose proof (div10_range (N.pos p `div` 10)%N 10 100 ltac:(lia)) as H1.
  pose proof (div10_range ((N.pos p `div` 10) `div` 10)%N 1 10 ltac:(lia)) as H0.
  rewrite pretty_N_go_step by lia.
  rewrite pretty_N_go_step by lia.
  rewrite pretty_N_go_step by lia.
  by rewrite pretty_N_go_digit by lia.
Qed.

(** X11. For a valid date, the text is as long as the year is plus 19
    characters: day, month, hour, minute and second take two each, the
    milliseconds three; with a year of four digits that is 23. *)
Theorem formatDate_length d :
  valid_date d = true →
  String.length (formatDate d) = 19 + String.length (pretty (getFullYear d))
  ∧ ((1000 ≤ getFullYear d ≤ 9999)%Z → String.length (formatDate d) = 23).
Proof.
  intros (Hd & Hm & Hh & Hmi & Hs & Hms)%valid_date_ranges.
  assert (String.length (formatDate d)
          = 19 + String.length (pretty (getFullYear d))) as Hlen.
  { unfold formatDate. rewrite !string_length_app.
    rewrite !pad2_length, pad3_length by done. simpl. lia. }
  split; [done|]. intros Hy. rewrite Hlen.
  by rewrite pretty_year_length.
Qed.

(** An instance: the sample date. *)
Lemma formatDate_length_witness :
  valid_date sample_date = true
  ∧ String.length (formatDate sample_date)
    = 19 + String.length (pretty (getFullYear sample_date)).
Proof.
  assert (valid_date sample_date = true) as Hv by reflexivity.
  split; [exact Hv|]. exact (proj1 (formatDate_length sample_date Hv)).
Defined.

(** X12. Two valid dates with the same text are the same date: the text
    loses nothing of what it was made from. *)
Theorem formatDate_inj d d' :
  valid_date d = true → valid_date d' = true →
  formatDate d = formatDate d' → d = d'.
Proof.
  intros (Hd & Hm & Hh & Hmi & Hs & Hms)%valid_date_ranges
         (Hd' & Hm' & Hh' & Hmi' & Hs' & Hms')%valid_date_ranges Heq.
  unfold formatDate in Heq.
  apply string_app_inj_length in Heq as [Hday Heq];
    [|by rewrite !pad2_length].
  apply (string_app_inj_length "-" "-") in Heq as [_ Heq]; [|done].
  apply string_app_inj_length in Heq as [Hmonth Heq];
    [|by rewrite !pad2_length].
  apply (string_app_inj_length "-" "-") in Heq as [_ Heq]; [|done].
  apply string_app_inj_length_r in Heq as [Hyear Heq].
  2:{ rewrite !string_length_app, !pad2_length, !pad3_length by done. done. }
  apply (string_app_inj_length " " " ") in Heq as [_ Heq]; [|done].
  apply string_app_inj_length in Heq as [Hhour Heq];
    [|by rewrite !pad2_length].
  apply (string_app_inj_length ":" ":") in Heq as [_ Heq]; [|done].
  apply string_app_inj_length in Heq as [Hmin Heq];
    [|by rewrite !pad2_length].
  apply (string_app_inj_length ":" ":") in Heq as [_ Heq]; [|done].
  apply string_app_inj_length in Heq as [Hsec Heq];
    [|by rewrite !pad2_length].
  apply (string_app_inj_length "." ".") in Heq as [_ Hmsec]; [|done].
  apply pad2_inj in Hday, Hmonth, Hhour, Hmin, Hsec; try done.
  apply pad3_inj in Hmsec; try done.
  apply (inj pretty) in Hyear.
  destruct d, d'; simpl in *. f_equal; (done || lia).
Qed.

(** An instance: the sample date against itself. *)
Lemma formatDate_inj_witness :
  valid_date sample_date = true
  ∧ formatDate sample_date = formatDate sample_date
  ∧ sample_date = sample_date.
Proof.
  assert (valid_date sample_date = true) as Hv by reflexivity.
  split; [exact Hv|]. split; [reflexivity|].
  exact (formatDate_inj sample_date sample_date Hv Hv eq_refl).
Defined.

(** *** The lines of the console *)

Lemma no_esc_app s t : no_esc (s +:+ t) = no_esc s && no_esc t.
Proof.
  induction s as [|c s IH]; [done|].
  change (String c s +:+ t) with (String c (s +:+ t)).
  cbn [no_esc]. by rewrite IH, andb_assoc.
Qed.

Lemma no_esc_pretty_N_go x s : no_esc (pretty_N_go x s) = no_esc s.
Proof.
  revert s. induction (N.lt_wf_0 x) as [x _ IH]; intros s.
  destruct (decide (0 < x)%N) as [Hx|Hx].
  - rewrite pretty_N_go_step by done. rewrite IH by (by apply N.div_lt).
    cbn [no_esc]. unfold pretty_N_char. by repeat case_match.
  - assert (x = 0%N) as -> by lia. by rewrite pretty_N_go_0.
Qed.

Lemma no_esc_pretty_N (x : N) : no_esc (pretty x) = true.
Proof.
  unfold pretty, pretty_N. case_decide; [done|]. by rewrite no_esc_pretty_N_go.
Qed.

Lemma no_esc_pretty_Z (x : Z) : no_esc (pretty x) = true.
Proof.
  destruct x as [|p|p]; [done|apply (no_esc_pretty_N (N.pos p))|].
  change (pretty (Z.neg p)) with ("-" +:+ pretty (N.pos p)).
  by rewrite no_esc_app, no_esc_pretty_N.
Qed.

Lemma no_esc_padStart n s : no_esc (padStart n "0" s) = no_esc s.
Proof.
  unfold padStart. rewrite no_esc_app.
  by induction (n - String.length s) as [|k IH].
Qed.

Lemma no_esc_formatDate d : no_esc (formatDate d) = true.
Proof.
  unfold formatDate.
  rewrite !no_esc_app, !no_esc_padStart, no_esc_pretty_Z.
  unfold pretty, pretty_nat. by rewrite !no_esc_pretty_N.
Qed.

Lemma string_split_at_esc s s' t t' :
  no_esc s = true → no_esc s' = true →
  s +:+ String ESC t = s' +:+ String ESC t' → s = s' ∧ t = t'.
Proof.
  revert s'. induction s as [|c s IH]; intros [|c' s'] Hs Hs' Heq;
    cbn in Hs, Hs', Heq.
  - by injection Heq as ->.
  - injection Heq as <- _. by rewrite bool_decide_eq_true_2 in Hs'.
  - injection Heq as -> _. by rewrite bool_decide_eq_true_2 in Hs.
  - injection Heq as -> Heq.
    apply andb_prop in Hs as [_ Hs]. apply andb_prop in Hs' as [_ Hs'].
    by destruct (IH s' Hs Hs' Heq) as [-> ->].
Qed.

Lemma console_line_tail ts ts' m m' :
  no_esc ts = true → no_esc ts' = true →
  ts +:+ RESET +:+ " - " +:+ m = ts' +:+ RESET +:+ " - " +:+ m' →
  ts = ts' ∧ m = m'.
Proof.
  intros Hts Hts' Heq.
  change (RESET +:+ " - " +:+ m) with (String ESC ("[0m - " +:+ m)) in Heq.
  change (RESET +:+ " - " +:+ m') with (String ESC ("[0m - " +:+ m')) in Heq.
  apply string_split_at_esc in Heq as [-> Heq]; [|done..].
  by apply (string_app_inj_length "[0m - " "[0m - ") in Heq as [_ ->].
Qed.

(** X13. A line of the console tells its level, its time and its
    message: two lines made by [info], [warn] or [error] at valid times
    are the same text only if level, time and message are the same. *)
Theorem console_line_inj level level' now now' message message' :
  valid_date now = true → valid_date now' = true →
  console_line level now message = console_line level' now' message' →
  level = level' ∧ now = now' ∧ message = message'.
Proof.
  intros Hv Hv' Heq.
  assert (level = level') as <-.
  { destruct level, level'; try done; cbv in Heq; discriminate. }
  split; [done|].
  assert (formatDate now = formatDate now' ∧ message = message') as [Hts ->].
  { destruct level; unfold console_line in Heq;
      apply (string_app_inj_length "[" "[") in Heq as [_ Heq]; try done;
      apply string_app_inj_length in Heq as [_ Heq]; try done;
      apply string_app_inj_length in Heq as [_ Heq]; try done;
      apply string_app_inj_length in Heq as [_ Heq]; try done;
      apply (string_app_inj_length "] " "] ") in Heq as [_ Heq]; try done;
      apply string_app_inj_length in Heq as [_ Heq]; try done;
      by apply console_line_tail in Heq; auto using no_esc_formatDate. }
  split; [|done]. by apply formatDate_inj.
Qed.

(** An instance: an error line. *)
Lemma console_line_inj_witness :
  valid_date sample_date = true
  ∧ console_line ERROR sample_date "Erro ao verificar tabela article"
    = console_line ERROR sample_date "Erro ao verificar tabela article"
  ∧ ERROR = ERROR.
Proof.
  assert (valid_date sample_date = true) as Hv by reflexivity.
  split; [exact Hv|]. split; [reflexivity|].
  exact (proj1 (console_line_inj ERROR ERROR sample_date sample_date
                  "Erro ao verificar tabela article"
                  "Erro ao verificar tabela article" Hv Hv eq_refl)).
Defined.

(** ** [authMiddleware] *)

Lemma split_first_app a b :
  no_space a = true →
  split_first (a +:+ String " " b) = (a, split_on_space b).
Proof.
  intros Ha. induction a as [|c a IH].
  - change ("" +:+ String " " b) with (String " " b). cbn [split_first].
    unfold split_on_space. by destruct (split_first b).
  - change (String c a +:+ String " " b) with (String c (a +:+ String " " b)).
    cbn [no_space] in Ha. apply andb_prop in Ha as [Hc Ha].
    cbn [split_first]. rewrite IH by done.
    by destruct (bool_decide (c = " "%char)).
Qed.

Lemma split_first_no_space a : no_space a = true → split_first a = (a, []).
Proof.
  induction a as [|c a IH]; [done|]. cbn [no_space split_first].
  intros [Hc Ha]%andb_prop. rewrite IH by done.
  by destruct (bool_decide (c = " "%char)).
Qed.

(** The pieces of a split have no space in them, and put together with
    spaces they give the text back. *)
Lemma split_first_spec s p ps :
  split_first s = (p, ps) →
  no_space p = true
  ∧ match ps with
    | [] => s = p
    | q :: qs => ∃ rest, s = p +:+ String " " rest ∧ split_first rest = (q, qs)
    end.
Proof.
  revert p ps. induction s as [|c s IH]; intros p ps Hs.
  { by injection Hs as <- <-. }
  cbn [split_first] in Hs. destruct (split_first s) as [p0 ps0] eqn:Hs0.
  destruct (IH p0 ps0 eq_refl) as [Hp0 Hrest].
  destruct (bool_decide (c = " "%char)) eqn:Hc; injection Hs as <- <-.
  - apply bool_decide_eq_true in Hc as ->. split; [done|]. by exists s.
  - split; [cbn [no_space]; by rewrite Hc|].
    destruct ps0 as [|q qs]; [by rewrite Hrest|].
    destruct Hrest as (rest & -> & Hq). by exists rest.
Qed.

Lemma split_on_space_two s scheme token :
  split_on_space s = [scheme; token] ↔
  s = scheme +:+ String " " token
  ∧ no_space scheme = true ∧ no_space token = true.
Proof.
  unfold split_on_space. split.
  - destruct (split_first s) as [p ps] eqn:Hs. intros [= -> ->].
    destruct (split_first_spec _ _ _ Hs) as (Hp & rest & -> & Hrest).
    destruct (split_first_spec _ _ _ Hrest) as (Ht & ->). done.
  - intros (-> & Hs & Ht). rewrite split_first_app by done.
    unfold split_on_space. by rewrite split_first_no_space.
Qed.

Lemma authMiddleware_next verify authorization log id :
  authMiddleware verify authorization = (log, Next id) →
  ∃ scheme token,
    authorization = Some (scheme +:+ String " " token)
    ∧ is_bearer scheme = true ∧ no_space token = true
    ∧ verify token = Some id.
Proof.
  unfold authMiddleware. destruct authorization as [[|c h]|]; try done.
  destruct (split_on_space (String c h)) as [|scheme [|token [|]]] eqn:Hs; try done.
  destruct (is_bearer scheme) eqn:Hb; [|done].
  destruct (verify token) as [id'|] eqn:Hv; [|done].
  intros [= _ ->]. apply split_on_space_two in Hs as (-> & _ & Ht). eauto 10.
Qed.

Lemma lower_space c :
  bool_decide (lower c = " "%char) = bool_decide (c = " "%char).
Proof. by destruct c as [[] [] [] [] [] [] [] []]. Qed.

Lemma no_space_lower s : no_space (lower_string s) = no_space s.
Proof.
  induction s as [|c s IH]; [done|].
  cbn [lower_string no_space]. by rewrite lower_space, IH.
Qed.

Lemma is_bearer_no_space scheme : is_bearer scheme = true → no_space scheme = true.
Proof.
  unfold is_bearer. intros Hb%bool_decide_eq_true.
  by rewrite <- no_space_lower, Hb.
Qed.

(** X14. [next] is called exactly for a header made of a scheme that
    reads "bearer" in any mix of upper and lower case, one space, and a
    token without a space that [jwt.verify] accepts; [req.userId] is
    then the [id] of what [jwt.verify] returned for that very token. *)
Theorem authMiddleware_calls_next_iff verify authorization id :
  (authMiddleware verify authorization).2 = Next id ↔
  ∃ scheme token,
    authorization = Some (scheme +:+ String " " token)
    ∧ is_bearer scheme = true ∧ no_space token = true
    ∧ verify token = Some id.
Proof.
  split.
  - destruct (authMiddleware verify authorization) as [log reply] eqn:Ha.
    simpl. intros ->. by eapply authMiddleware_next.
  - intros (scheme & token & -> & Hb & Ht & Hv).
    assert (split_on_space (scheme +:+ String " " token) = [scheme; token]) as Hs.
    { apply split_on_space_two. auto using is_bearer_no_space. }
    unfold authMiddleware.
    destruct (scheme +:+ String " " token) as [|c h] eqn:Hh.
    { by destruct scheme. }
    by rewrite Hs, Hb, Hv.
Qed.

Example authMiddleware_sample :
  authMiddleware sample_verify (Some "bEaReR abc.def.ghi")
  = ((INFO, UsuarioAutenticado (Some "42")), Next (Some "42")).
Proof. vm_compute. reflexivity. Qed.

Lemma spaces_app a b : spaces (a +:+ b) = spaces a + spaces b.
Proof.
  induction a as [|c a IH]; [done|].
  change (String c a +:+ b) with (String c (a +:+ b)).
  cbn [spaces]. rewrite IH. lia.
Qed.

Lemma no_space_spaces s : no_space s = true → spaces s = 0.
Proof.
  induction s as [|c s IH]; [done|]. cbn [no_space spaces].
  intros [Hc Hs]%andb_prop. rewrite IH by done.
  by destruct (bool_decide (c = " "%char)).
Qed.

(** X15. A header that is not empty and does not hold exactly one space
    is answered 401 "Token mal formatado" without [jwt.verify] being
    asked: whatever [verify] is, a second space between scheme and
    token, or one after the token, is enough. *)
Theorem authMiddleware_rejects_spaces verify c h :
  spaces (String c h) ≠ 1 →
  authMiddleware verify (Some (String c h))
  = ((WARN, LogTokenMalFormatado (String c h)), Status401 TokenMalFormatado).
Proof.
  intros Hsp. unfold authMiddleware.
  destruct (split_on_space (String c h)) as [|scheme [|token [|]]] eqn:Hs; try done.
  exfalso. apply Hsp. apply split_on_space_two in Hs as (-> & Hsch & Htok).
  rewrite spaces_app. cbn [spaces]. rewrite !no_space_spaces by done.
  by rewrite bool_decide_eq_true_2.
Qed.

(** An instance: two spaces before a token that [verify] would accept. *)
Lemma authMiddleware_rejects_spaces_witness :
  spaces "Bearer  abc.def.ghi" ≠ 1
  ∧ authMiddleware sample_verify (Some "Bearer  abc.def.ghi")
    = ((WARN, LogTokenMalFormatado "Bearer  abc.def.ghi"),
       Status401 TokenMalFormatado).
Proof.
  assert (spaces "Bearer  abc.def.ghi" ≠ 1) as Hsp by (vm_compute; lia).
  split; [exact Hsp|].
  exact (authMiddleware_rejects_spaces sample_verify "B" "earer  abc.def.ghi" Hsp).
Defined.

(** ** Start-up *)



